(** * S3ToOneDrive: a shallow embedding of [index.js]

    The Lambda handler of the repository copies one S3 object to a OneDrive
    shared folder.  Every function of [index.js] is embedded below, in the
    order of the source file.  The outside world (S3, the local file system,
    the Microsoft endpoints, the clock and [process.env]) is a record of
    oracles; every request the code performs is appended, with its answer,
    to a trace.  Console output is not modelled. *)

From Stdlib Require Import ZArith NArith List Ascii String Bool Lia.
From stdpp Require Import base option list strings gmap pretty.
Import ListNotations.

#[local] Set Warnings "-register-all".
Open Scope string_scope.
Open Scope list_scope.
Open Scope Z_scope.

(** ** JavaScript strings

    A JS string is modelled by its UTF-8 bytes.  The double quote and the
    backslash are written by their character codes. *)

Definition dquote : ascii := "034"%char.
Definition bslash : ascii := "092"%char.
Definition str1 (c : ascii) : string := String c EmptyString.
Definition quoted (s : string) : string := str1 dquote +:+ s +:+ str1 dquote.

(** ** JavaScript values

    Values that come out of [JSON.parse] (the [data] of an axios response),
    together with [undefined], which property look-ups produce.  Objects keep
    their fields in order; a look-up takes the first field of that name. *)

Inductive Value : Type :=
| VUndefined
| VNull
| VBool (b : bool)
| VNum (n : Z)
| VStr (s : string)
| VArr (items : list Value)
| VObj (fields : list (string * Value)).

(** Errors are objects with a [name] and a [message].  The message is a
    string, as it is for every error that [index.js], axios, [fs] and
    [decodeURIComponent] create.  An error object whose [message] is [null],
    missing or not a string is not represented; for such an object
    [JSON.stringify] (index.js:198) writes [null] or leaves the [error]
    field out, and no statement below covers it. *)
Record JsError : Type := mkJsError { err_name : string; err_message : string }.

Definition Error (msg : string) : JsError := mkJsError "Error" msg.
Definition TypeError (msg : string) : JsError := mkJsError "TypeError" msg.
Definition URIError (msg : string) : JsError := mkJsError "URIError" msg.
Definition AxiosError (msg : string) : JsError := mkJsError "AxiosError" msg.

(** [ToBoolean]: what [!v] and [a && b] look at. *)
Definition truthy (v : Value) : bool :=
  match v with
  | VUndefined | VNull => false
  | VBool b => b
  | VNum n => negb (n =? 0)
  | VStr s => negb (String.eqb s "")
  | VArr _ | VObj _ => true
  end.

(** [ToString], as a template literal applies it.  A number is an integer
    and prints with all its digits, as JS prints the integers up to 2^53;
    the shortest or exponent form that JS gives larger numbers ([1e+21]) is
    not modelled, and no statement below depends on the text of a number
    above that bound. *)
Fixpoint ToString (v : Value) : string :=
  match v with
  | VUndefined => "undefined"
  | VNull => "null"
  | VBool true => "true"
  | VBool false => "false"
  | VNum n => pretty n
  | VStr s => s
  | VArr items =>
      let elt (x : Value) : string :=
        match x with
        | VUndefined | VNull => ""
        | _ => ToString x
        end in
      (fix join (l : list Value) : string :=
         match l with
         | [] => ""
         | [x] => elt x
         | x :: ((_ :: _) as rest) => elt x +:+ "," +:+ join rest
         end) items
  | VObj _ => "[object Object]"
  end.

(** A value of [process.env]: a string, or [undefined] when the variable is
    not set. *)
Definition env_value (o : option string) : Value :=
  match o with
  | Some s => VStr s
  | None => VUndefined
  end.

Fixpoint assoc_lookup (fields : list (string * Value)) (p : string) : Value :=
  match fields with
  | [] => VUndefined
  | (k, v) :: rest => if String.eqb k p then v else assoc_lookup rest p
  end.

(** [v.p] for a data property [p].  Reading a property of [undefined] or
    [null] throws a [TypeError] (the message is V8's); primitives, arrays and
    objects without the field give [undefined].  None of the property names
    that [index.js] reads is inherited from a prototype. *)
Definition get_prop (v : Value) (p : string) : JsError + Value :=
  match v with
  | VUndefined =>
      inl (TypeError ("Cannot read properties of undefined (reading '" +:+ p +:+ "')"))
  | VNull =>
      inl (TypeError ("Cannot read properties of null (reading '" +:+ p +:+ "')"))
  | VObj fields => inr (assoc_lookup fields p)
  | _ => inr VUndefined
  end.

(** [a === b] where [b] is a string or [undefined]: an array or an object
    is never identical to it. *)
Definition strict_eq (a b : Value) : bool :=
  match a, b with
  | VUndefined, VUndefined => true
  | VNull, VNull => true
  | VBool x, VBool y => Bool.eqb x y
  | VNum x, VNum y => x =? y
  | VStr x, VStr y => String.eqb x y
  | _, _ => false
  end.

(** [Array.prototype.find] with a predicate that may throw. *)
Fixpoint array_find (pred : Value -> JsError + bool) (l : list Value)
  : JsError + Value :=
  match l with
  | [] => inr VUndefined
  | x :: rest =>
      match pred x with
      | inl e => inl e
      | inr true => inr x
      | inr false => array_find pred rest
      end
  end.

(** ** [JSON.stringify] on an object of string fields *)

Definition hex_digit (n : N) : ascii :=
  if (n <? 10)%N then ascii_of_N (48 + n) else ascii_of_N (87 + n).

Definition json_escape_char (c : ascii) : string :=
  let n := N_of_ascii c in
  if Ascii.eqb c dquote then String bslash (str1 dquote)
  else if Ascii.eqb c bslash then String bslash (str1 bslash)
  else if (n =? 8)%N then String bslash "b"
  else if (n =? 9)%N then String bslash "t"
  else if (n =? 10)%N then String bslash "n"
  else if (n =? 12)%N then String bslash "f"
  else if (n =? 13)%N then String bslash "r"
  else if (n <? 32)%N then
    String bslash ("u00" +:+ String (hex_digit (n / 16)) (str1 (hex_digit (n mod 16))))
  else str1 c.

Fixpoint json_escape (s : string) : string :=
  match s with
  | EmptyString => ""
  | String c rest => json_escape_char c +:+ json_escape rest
  end.

Definition json_string (s : string) : string := quoted (json_escape s).

Fixpoint json_fields (fs : list (string * string)) : string :=
  match fs with
  | [] => ""
  | [(k, v)] => json_string k +:+ ":" +:+ json_string v
  | (k, v) :: ((_ :: _) as rest) =>
      json_string k +:+ ":" +:+ json_string v +:+ "," +:+ json_fields rest
  end.

(** [JSON.stringify({k1: v1, ...})] for string values [v1], ... *)
Definition JSON_stringify (fs : list (string * string)) : string :=
  "{" +:+ json_fields fs +:+ "}".

(** ** [decodeURIComponent]

    The [Decode] operation of ECMAScript with an empty reserved set.  An
    escape [%XX] below 0x80 gives that character; a larger first octet starts
    a UTF-8 sequence whose remaining octets must be escapes too and which
    must be a valid encoding.  Every failure is the same [URIError]. *)

Definition hex_value (c : ascii) : option N :=
  let n := N_of_ascii c in
  if ((48 <=? n) && (n <=? 57))%N then Some (n - 48)%N
  else if ((65 <=? n) && (n <=? 70))%N then Some (n - 55)%N
  else if ((97 <=? n) && (n <=? 102))%N then Some (n - 87)%N
  else None.

(** Number of leading one bits of an octet. *)
Definition leading_ones (b : N) : nat :=
  if (b <? 128)%N then 0%nat
  else if (b <? 192)%N then 1%nat
  else if (b <? 224)%N then 2%nat
  else if (b <? 240)%N then 3%nat
  else if (b <? 248)%N then 4%nat
  else 5%nat.

Definition in_range (lo hi b : N) : bool := ((lo <=? b) && (b <=? hi))%N.

(** Well-formed UTF-8 byte sequences (Unicode, table 3-7). *)
Definition valid_utf8 (octets : list N) : bool :=
  match octets with
  | [b0; b1] => in_range 194 223 b0 && in_range 128 191 b1
  | [b0; b1; b2] =>
      (  (N.eqb b0 224 && in_range 160 191 b1)
      || (in_range 225 236 b0 && in_range 128 191 b1)
      || (N.eqb b0 237 && in_range 128 159 b1)
      || (in_range 238 239 b0 && in_range 128 191 b1))
      && in_range 128 191 b2
  | [b0; b1; b2; b3] =>
      (  (N.eqb b0 240 && in_range 144 191 b1)
      || (in_range 241 243 b0 && in_range 128 191 b1)
      || (N.eqb b0 244 && in_range 128 143 b1))
      && in_range 128 191 b2 && in_range 128 191 b3
  | _ => false
  end.

Definition string_of_octets (octets : list N) : string :=
  fold_right (fun b acc => String (ascii_of_N b) acc) "" octets.

(** [decode_from pending need s]: [pending] holds the octets of the UTF-8
    sequence being read and [need] how many are still missing. *)
Fixpoint decode_from (pending : list N) (need : nat) (s : string) : option string :=
  match s with
  | EmptyString =>
      match need with
      | O => Some ""
      | S _ => None
      end
  | String c rest =>
      if Ascii.eqb c "%" then
        match rest with
        | String h1 (String h2 rest') =>
            match hex_value h1, hex_value h2 with
            | Some a, Some b =>
                let B := (16 * a + b)%N in
                match need with
                | O =>
                    match leading_ones B with
                    | 0%nat => String (ascii_of_N B) <$> decode_from [] 0 rest'
                    | 1%nat => None
                    | S (S k as n') =>
                        if (4 <? S n')%nat then None
                        else decode_from [B] n' rest'
                    end
                | S m =>
                    let octets := pending ++ [B] in
                    match m with
                    | O =>
                        if valid_utf8 octets
                        then String.append (string_of_octets octets)
                               <$> decode_from [] 0 rest'
                        else None
                    | S _ => decode_from octets m rest'
                    end
                end
            | _, _ => None
            end
        | _ => None
        end
      else
        match need with
        | O => String c <$> decode_from [] 0 rest
        | S _ => None
        end
  end.

Definition decodeURIComponent (s : string) : JsError + string :=
  match decode_from [] 0 s with
  | Some r => inr r
  | None => inl (URIError "URI malformed")
  end.

(** ** [path.extname] and [path.join] (POSIX)

    [extname] scans the path from its last character, as Node does. *)

Record ExtScan : Type := mkExtScan {
  startDot : Z;
  startPart : Z;
  scanEnd : Z;
  matchedSlash : bool;
  preDotState : Z
}.

Fixpoint extname_scan (rev_chars : list ascii) (i : Z) (st : ExtScan) : ExtScan :=
  match rev_chars with
  | [] => st
  | code :: more =>
      if Ascii.eqb code "/" then
        if negb (matchedSlash st)
        then mkExtScan (startDot st) (i + 1) (scanEnd st) (matchedSlash st) (preDotState st)
        else extname_scan more (i - 1) st
      else
        let st1 :=
          if scanEnd st =? -1
          then mkExtScan (startDot st) (startPart st) (i + 1) false (preDotState st)
          else st in
        let st2 :=
          if Ascii.eqb code "."
          then
            if startDot st1 =? -1
            then mkExtScan i (startPart st1) (scanEnd st1) (matchedSlash st1) (preDotState st1)
            else if negb (preDotState st1 =? 1)
                 then mkExtScan (startDot st1) (startPart st1) (scanEnd st1) (matchedSlash st1) 1
                 else st1
          else
            if negb (startDot st1 =? -1)
            then mkExtScan (startDot st1) (startPart st1) (scanEnd st1) (matchedSlash st1) (-1)
            else st1 in
        extname_scan more (i - 1) st2
  end.

Definition slice (s : string) (from to : Z) : string :=
  String.substring (Z.to_nat from) (Z.to_nat (to - from)) s.

Definition extname (p : string) : string :=
  let st := extname_scan (rev (list_ascii_of_string p))
              (Z.of_nat (String.length p) - 1)
              (mkExtScan (-1) 0 (-1) true 0) in
  if (startDot st =? -1) || (scanEnd st =? -1) || (preDotState st =? 0)
     || ((preDotState st =? 1) && (startDot st =? scanEnd st - 1)
         && (startDot st =? startPart st + 1))
  then ""
  else slice p (startDot st) (scanEnd st).

(** [path.join("/tmp", name)] for a [name] of one segment, which is what the
    handler passes: the extension holds no slash, so normalising the joined
    path changes nothing. *)
Definition path_join_tmp (name : string) : string := "/tmp/" +:+ name.

(** ** Requests, answers and the trace *)

Inductive Method : Type := GET | POST | PUT.

Inductive Body : Type :=
| NoBody
| FormBody (params : list (string * string))   (* URLSearchParams *)
| BufferBody (bytes : list Byte.byte).          (* a Buffer *)

(** A call of axios as [index.js] makes it.  [req_url] is the url argument,
    the string that the code builds.  axios parses that string before it
    sends anything (a [#] starts the fragment, a [?] the query, dot segments
    are removed), so the address on the wire can differ from the string;
    that parsing is not modelled, and the statements below are about the
    string. *)
Record HttpRequest : Type := mkRequest {
  req_method : Method;
  req_url : string;
  req_headers : list (string * string);
  req_body : Body
}.

(** What the network gives back: no response at all (a transport error), or
    a response with a status and a parsed body.  A request that is never
    answered is not represented: [index.js] sets no timeout, so the function
    awaiting such a request would never continue.  The statements below are
    about invocations whose requests are all answered; the one way of not
    returning that is modelled is a download promise that never settles. *)
Inductive HttpResult : Type :=
| NetworkError (e : JsError)
| HttpResponse (status : Z) (data : Value).

Record AxiosResponse : Type := mkResponse { status : Z; data : Value }.

(** Events of the two streams of a download, and the settling of the
    [fs.stat] that a ['finish'] listener awaits. *)
Inductive StreamEvent : Type :=
| ReadError (error : JsError)      (* fileStream emits 'error' *)
| ReadEnd                          (* fileStream emits 'end' *)
| WriteFinish                      (* writeStream emits 'finish' *)
| StatSettled (r : JsError + N)    (* fs.stat(downloadPath) settles *)
| WriteError (error : JsError).    (* writeStream emits 'error' *)

(** What an invocation does to the outside world.  [index.js] calls nothing
    that removes or renames a file, so there is no event for it. *)
Inductive Event : Type :=
| EvS3Download (bucket key path : string) (stream : list StreamEvent)
| EvStat (path : string) (r : JsError + N)
| EvReadFile (path : string) (r : JsError + list Byte.byte)
| EvHttp (req : HttpRequest) (r : HttpResult).

Definition Trace : Type := list Event.

(** The world answers every request; an answer may depend on everything
    that happened before.  [fs_stat] and [fs_readFile] settle, with an error
    or a value; a file operation that never settles is not represented. *)
Record World : Type := mkWorld {
  process_env : gmap string string;
  Date_now : N;
  s3_transfer : Trace -> string -> string -> string -> list StreamEvent;
  fs_stat : Trace -> string -> JsError + N;
  fs_readFile : Trace -> string -> JsError + list Byte.byte;
  http_send : Trace -> HttpRequest -> HttpResult
}.

(** ** Asynchronous computations

    An [async] function body run to its end: it returns, throws, or awaits a
    promise that never settles.  The trace is threaded through. *)

Inductive Result (A : Type) : Type :=
| Ok (a : A)
| Throw (e : JsError)
| Never.
Arguments Ok {A} a.
Arguments Throw {A} e.
Arguments Never {A}.

Definition Async (A : Type) : Type := Trace -> Result A * Trace.

Definition ret {A} (a : A) : Async A := fun h => (Ok a, h).
Definition throw {A} (e : JsError) : Async A := fun h => (Throw e, h).

Definition bind {A B} (m : Async A) (k : A -> Async B) : Async B :=
  fun h =>
    match m h with
    | (Ok a, h') => k a h'
    | (Throw e, h') => (Throw e, h')
    | (Never, h') => (Never, h')
    end.

(** [try { m } catch (err) { handler err }] *)
Definition try_catch {A} (m : Async A) (handler : JsError -> Async A) : Async A :=
  fun h =>
    match m h with
    | (Throw e, h') => handler e h'
    | r => r
    end.

(** A synchronous step that may throw. *)
Definition lift {A} (r : JsError + A) : Async A :=
  match r with
  | inl e => throw e
  | inr a => ret a
  end.

Declare Scope async_scope.
Delimit Scope async_scope with async.
Notation "'let!' x ':=' m 'in' k" := (bind m (fun x => k))
  (at level 10, x name, m at level 100, k at level 200) : async_scope.
Open Scope async_scope.

(** ** Promises *)

Inductive PromiseState : Type :=
| Pending
| Fulfilled
| Rejected (reason : JsError).

(** Calling [resolve] or [reject] on a settled promise does nothing. *)
Definition resolve (p : PromiseState) : PromiseState :=
  match p with
  | Pending => Fulfilled
  | _ => p
  end.

Definition reject (reason : JsError) (p : PromiseState) : PromiseState :=
  match p with
  | Pending => Rejected reason
  | _ => p
  end.

(** The promise of [downloadFileFromS3] together with the number of
    ['finish'] listeners that are awaiting their [fs.stat]. *)
Record DownloadState : Type := mkDownload {
  promise : PromiseState;
  awaiting_stat : nat
}.

Definition download_start : DownloadState := mkDownload Pending 0.

(** The three listeners that [downloadFileFromS3] registers.  The read
    stream's ['end'] has no listener. *)
Definition on_event (d : DownloadState) (ev : StreamEvent) : DownloadState :=
  match ev with
  | ReadError error => mkDownload (reject error (promise d)) (awaiting_stat d)
  | ReadEnd => d
  | WriteFinish => mkDownload (promise d) (S (awaiting_stat d))
  | StatSettled r =>
      match awaiting_stat d with
      | O => d
      | S k =>
          match r with
          | inr _ => mkDownload (resolve (promise d)) k
          | inl err => mkDownload (reject err (promise d)) k
          end
      end
  | WriteError error => mkDownload (reject error (promise d)) (awaiting_stat d)
  end.

Definition run_stream (evs : list StreamEvent) (d : DownloadState) : DownloadState :=
  fold_left on_event evs d.

Definition is_pending (p : PromiseState) : bool :=
  match p with
  | Pending => true
  | _ => false
  end.

(** How many of the events changed the promise from pending to settled. *)
Fixpoint settlements (evs : list StreamEvent) (d : DownloadState) : nat :=
  match evs with
  | [] => 0
  | ev :: rest =>
      let d' := on_event d ev in
      ((if is_pending (promise d) && negb (is_pending (promise d')) then 1 else 0)
       + settlements rest d')%nat
  end.

(** ** The trigger and the outcome *)

Record S3Record : Type := mkRecord { bucket_name : string; object_key : string }.
Record LambdaEvent : Type := mkEvent { Records : list S3Record }.
Record Outcome : Type := mkOutcome { statusCode : Z; body : string }.
Record FolderRef : Type := mkFolderRef { driveId : Value; itemId : Value }.

Definition token_url : string :=
  "https://login.microsoftonline.com/common/oauth2/v2.0/token".
Definition shared_url : string :=
  "https://graph.microsoft.com/v1.0/me/drive/sharedWithMe".
Definition upload_url (driveId folderItemId : Value) (fileName : string) : string :=
  "https://graph.microsoft.com/v1.0/drives/" +:+ ToString driveId +:+ "/items/"
    +:+ ToString folderItemId +:+ ":/" +:+ fileName +:+ ":/content".

Definition bearer (accessToken : Value) : string := "Bearer " +:+ ToString accessToken.

(** [items.find(pred)] where [items] is any value. *)
Definition call_find (items : Value) (pred : Value -> JsError + bool)
  : JsError + Value :=
  match items with
  | VArr l => array_find pred l
  | VUndefined => inl (TypeError "Cannot read properties of undefined (reading 'find')")
  | VNull => inl (TypeError "Cannot read properties of null (reading 'find')")
  | _ => inl (TypeError "response.data.value.find is not a function")
  end.

(** [(item) => item.name === folderName && item.folder], as a test. *)
Definition folder_matches (folderName : Value) (item : Value) : JsError + bool :=
  match get_prop item "name" with
  | inl e => inl e
  | inr name =>
      if strict_eq name folderName
      then match get_prop item "folder" with
           | inl e => inl e
           | inr folder => inr (truthy folder)
           end
      else inr false
  end.

(** ** The functions of [index.js] *)

Section Program.
Variable w : World.

(** axios: a response whose status is outside 200..299 is thrown (the
    default [validateStatus]); a transport error is thrown as it is. *)
Definition axios (req : HttpRequest) : Async AxiosResponse :=
  fun h =>
    let r := http_send w h req in
    let h' := h ++ [EvHttp req r] in
    match r with
    | NetworkError e => (Throw e, h')
    | HttpResponse st d =>
        if (200 <=? st) && (st <? 300)
        then (Ok (mkResponse st d), h')
        else (Throw (AxiosError ("Request failed with status code " +:+ pretty st)), h')
    end.

Definition stat (path : string) : Async N :=
  fun h =>
    let r := fs_stat w h path in
    lift r (h ++ [EvStat path r]).

Definition readFile (path : string) : Async (list Byte.byte) :=
  fun h =>
    let r := fs_readFile w h path in
    lift r (h ++ [EvReadFile path r]).

Definition env (name : string) : Value := env_value (process_env w !! name).

Definition token_request : HttpRequest :=
  mkRequest POST token_url
    [("Content-Type", "application/x-www-form-urlencoded")]
    (FormBody [("client_id", ToString (env "AZURE_CLIENT_ID"));
               ("refresh_token", ToString (env "ONEDRIVE_REFRESH_TOKEN"));
               ("grant_type", "refresh_token");
               ("scope", "Files.ReadWrite.All offline_access")]).

Definition getOneDriveAccessToken : Async Value :=
  try_catch
    (let! response := axios token_request in
     if status response =? 200
     then lift (get_prop (data response) "access_token")
     else throw (Error "Failed to fetch OneDrive access token."))
    (fun err => throw err).

Definition shared_request (accessToken : Value) : HttpRequest :=
  mkRequest GET shared_url [("Authorization", bearer accessToken)] NoBody.

Definition resolveSharedFolder (folderName : Value) : Async FolderRef :=
  let! accessToken := getOneDriveAccessToken in
  try_catch
    (let! response := axios (shared_request accessToken) in
     let! items := lift (get_prop (data response) "value") in
     let! sharedFolder := lift (call_find items (folder_matches folderName)) in
     if negb (truthy sharedFolder)
     then throw (Error ("Shared folder " +:+ quoted (ToString folderName)
                          +:+ " not found."))
     else
       let! remoteItem := lift (get_prop sharedFolder "remoteItem") in
       let! parentReference := lift (get_prop remoteItem "parentReference") in
       let! driveId := lift (get_prop parentReference "driveId") in
       let! remoteItem' := lift (get_prop sharedFolder "remoteItem") in
       let! itemId := lift (get_prop remoteItem' "id") in
       ret (mkFolderRef driveId itemId))
    (fun err => throw err).

Definition upload_request (driveId folderItemId : Value) (fileName : string)
    (accessToken : Value) (fileBuffer : list Byte.byte) : HttpRequest :=
  mkRequest PUT (upload_url driveId folderItemId fileName)
    [("Authorization", bearer accessToken);
     ("Content-Type", "application/octet-stream")]
    (BufferBody fileBuffer).

Definition uploadFileToSharedFolder (driveId folderItemId : Value)
    (filePath fileName : string) : Async Value :=
  let! accessToken := getOneDriveAccessToken in
  try_catch
    (let! fileBuffer := readFile filePath in
     let! response :=
       axios (upload_request driveId folderItemId fileName accessToken fileBuffer) in
     if (status response =? 201) || (status response =? 200)
     then ret (data response)
     else throw (Error "Failed to upload file to shared folder."))
    (fun err => throw err).

(** The promise that [downloadFileFromS3] returns is awaited by the
    handler: it continues when the promise fulfils, catches its rejection,
    and never continues when no event settles it. *)
Definition downloadFileFromS3 (bucketName fileKey downloadPath : string)
  : Async unit :=
  fun h =>
    let evs := s3_transfer w h bucketName fileKey downloadPath in
    let h' := h ++ [EvS3Download bucketName fileKey downloadPath evs] in
    match promise (run_stream evs download_start) with
    | Fulfilled => (Ok tt, h')
    | Rejected reason => (Throw reason, h')
    | Pending => (Never, h')
    end.

Definition success_outcome (sharedFolderName : Value) : Outcome :=
  mkOutcome 200
    (JSON_stringify
       [("message", "File uploaded successfully to shared folder "
                      +:+ quoted (ToString sharedFolderName))]).

Definition failure_outcome (err : JsError) : Outcome :=
  mkOutcome 500
    (JSON_stringify
       [("message", "Failed to process shared folder");
        ("error", err_message err)]).

Definition download_path (fileKey : string) : string :=
  path_join_tmp ("download-" +:+ pretty (Date_now w) +:+ extname fileKey).

Definition handler (event : LambdaEvent) : Async Outcome :=
  try_catch
    (let! record :=
       match Records event with
       | record :: _ => ret record
       | [] => throw (TypeError "Cannot read properties of undefined (reading 's3')")
       end in
     let bucketName := bucket_name record in
     let! fileKey := lift (decodeURIComponent (object_key record)) in
     let downloadPath := download_path fileKey in
     let! _ := downloadFileFromS3 bucketName fileKey downloadPath in
     let! fileStats_size := stat downloadPath in
     if (fileStats_size =? 0)%N
     then throw (Error "Downloaded file is empty.")
     else
       let sharedFolderName := env "ONEDRIVE_SHARED_FOLDER" in
       let! sharedFolder := resolveSharedFolder sharedFolderName in
       let! uploadSuccess :=
         uploadFileToSharedFolder (driveId sharedFolder) (itemId sharedFolder)
           downloadPath fileKey in
       if negb (truthy uploadSuccess)
       then throw (Error "Failed to upload file to shared folder on OneDrive.")
       else ret (success_outcome sharedFolderName))
    (fun err => ret (failure_outcome err)).

(** One invocation, from an empty trace. *)
Definition invoke (event : LambdaEvent) : Result Outcome * Trace :=
  handler event [].

End Program.

(** ** What each function makes of the answers it receives

    The synchronous part of each function, as a function of the answer to
    its request.  The lemmas below relate them to the embedded code. *)

#[global] Instance throws_bind : MBind (sum JsError) :=
  fun A B f r =>
    match r with
    | inl e => inl e
    | inr a => f a
    end.

Definition unlift {A} (r : JsError + A) : Result A :=
  match r with
  | inl e => Throw e
  | inr a => Ok a
  end.

Definition is_2xx (st : Z) : bool := (200 <=? st) && (st <? 300).

Definition status_error (st : Z) : JsError :=
  AxiosError ("Request failed with status code " +:+ pretty st).

Definition token_result (r : HttpResult) : Result Value :=
  match r with
  | NetworkError e => Throw e
  | HttpResponse st d =>
      if is_2xx st then
        if st =? 200 then unlift (get_prop d "access_token")
        else Throw (Error "Failed to fetch OneDrive access token.")
      else Throw (status_error st)
  end.

Definition not_found (folderName : Value) : JsError :=
  Error ("Shared folder " +:+ quoted (ToString folderName) +:+ " not found.").

Definition pick_folder (folderName : Value) (d : Value) : JsError + FolderRef :=
  items ← get_prop d "value";
  sharedFolder ← call_find items (folder_matches folderName);
  if negb (truthy sharedFolder) then inl (not_found folderName)
  else
    remoteItem ← get_prop sharedFolder "remoteItem";
    parentReference ← get_prop remoteItem "parentReference";
    driveId ← get_prop parentReference "driveId";
    remoteItem' ← get_prop sharedFolder "remoteItem";
    itemId ← get_prop remoteItem' "id";
    inr (mkFolderRef driveId itemId).

Definition resolve_result (folderName : Value) (r : HttpResult) : Result FolderRef :=
  match r with
  | NetworkError e => Throw e
  | HttpResponse st d =>
      if is_2xx st then unlift (pick_folder folderName d)
      else Throw (status_error st)
  end.

Definition upload_result (r : HttpResult) : Result Value :=
  match r with
  | NetworkError e => Throw e
  | HttpResponse st d =>
      if is_2xx st then
        if (st =? 201) || (st =? 200) then Ok d
        else Throw (Error "Failed to upload file to shared folder.")
      else Throw (status_error st)
  end.

(** The error of a token request answered with a status other than 200:
    thrown by axios outside 200..299, by the function itself inside. *)
Definition token_failure (st : Z) : JsError :=
  if is_2xx st then Error "Failed to fetch OneDrive access token."
  else status_error st.

Definition upload_rejected : JsError :=
  Error "Failed to upload file to shared folder on OneDrive.".
Definition empty_download : JsError := Error "Downloaded file is empty.".
Definition no_record : JsError :=
  TypeError "Cannot read properties of undefined (reading 's3')".

(** ** Runs

    The runs of each function as relations between the trace it starts
    from, its result and the trace it leaves. *)

Section RunRelations.
Variable w : World.

(** [r] is the answer of the world to the request [req] sent after [h]. *)
Definition answers (h : Trace) (req : HttpRequest) (r : HttpResult) : Prop :=
  http_send w h req = r.

(** The runs of [resolveSharedFolder] from a trace [h]. *)
Inductive ResolveRun (folderName : Value) (h : Trace)
  : Result FolderRef -> Trace -> Prop :=
| resolve_without_token r1 e :
    answers h (token_request w) r1 ->
    token_result r1 = Throw e ->
    ResolveRun folderName h (Throw e) (h ++ [EvHttp (token_request w) r1])
| resolve_listed r1 accessToken r2 :
    answers h (token_request w) r1 ->
    token_result r1 = Ok accessToken ->
    answers (h ++ [EvHttp (token_request w) r1]) (shared_request accessToken) r2 ->
    ResolveRun folderName h (resolve_result folderName r2)
      (h ++ [EvHttp (token_request w) r1;
             EvHttp (shared_request accessToken) r2]).

(** The runs of [uploadFileToSharedFolder] from a trace [h]. *)
Inductive UploadRun (driveId folderItemId : Value) (filePath fileName : string)
    (h : Trace) : Result Value -> Trace -> Prop :=
| upload_without_token r1 e :
    answers h (token_request w) r1 ->
    token_result r1 = Throw e ->
    UploadRun driveId folderItemId filePath fileName h
      (Throw e) (h ++ [EvHttp (token_request w) r1])
| upload_unreadable r1 accessToken e :
    answers h (token_request w) r1 ->
    token_result r1 = Ok accessToken ->
    fs_readFile w (h ++ [EvHttp (token_request w) r1]) filePath = inl e ->
    UploadRun driveId folderItemId filePath fileName h
      (Throw e)
      (h ++ [EvHttp (token_request w) r1; EvReadFile filePath (inl e)])
| upload_sent r1 accessToken fileBuffer r2 :
    answers h (token_request w) r1 ->
    token_result r1 = Ok accessToken ->
    fs_readFile w (h ++ [EvHttp (token_request w) r1]) filePath = inr fileBuffer ->
    answers
      (h ++ [EvHttp (token_request w) r1; EvReadFile filePath (inr fileBuffer)])
      (upload_request driveId folderItemId fileName accessToken fileBuffer) r2 ->
    UploadRun driveId folderItemId filePath fileName h
      (upload_result r2)
      (h ++ [EvHttp (token_request w) r1; EvReadFile filePath (inr fileBuffer);
             EvHttp (upload_request driveId folderItemId fileName accessToken
                       fileBuffer) r2]).

(** The runs of the handler.  [downloaded] is the first event of every
    invocation that gets a key; [checked] is the trace once the size of
    the downloaded file has been read. *)
Definition s3_stream (bucketName fileKey : string) : list StreamEvent :=
  s3_transfer w [] bucketName fileKey (download_path w fileKey).

Definition downloaded (bucketName fileKey : string) : Event :=
  EvS3Download bucketName fileKey (download_path w fileKey)
    (s3_stream bucketName fileKey).

Definition download_promise (bucketName fileKey : string) : PromiseState :=
  promise (run_stream (s3_stream bucketName fileKey) download_start).

Definition checked (bucketName fileKey : string) (r : JsError + N) : Trace :=
  [downloaded bucketName fileKey; EvStat (download_path w fileKey) r].

Definition size_read (bucketName fileKey : string) : JsError + N :=
  fs_stat w [downloaded bucketName fileKey] (download_path w fileKey).

Definition folder_name : Value := env w "ONEDRIVE_SHARED_FOLDER".

Inductive TransferRun (bucketName fileKey : string)
  : Result Outcome -> Trace -> Prop :=
| transfer_rejected reason :
    download_promise bucketName fileKey = Rejected reason ->
    TransferRun bucketName fileKey
      (Ok (failure_outcome reason)) [downloaded bucketName fileKey]
| transfer_pending :
    download_promise bucketName fileKey = Pending ->
    TransferRun bucketName fileKey Never [downloaded bucketName fileKey]
| transfer_stat_failed e :
    download_promise bucketName fileKey = Fulfilled ->
    size_read bucketName fileKey = inl e ->
    TransferRun bucketName fileKey
      (Ok (failure_outcome e)) (checked bucketName fileKey (inl e))
| transfer_empty :
    download_promise bucketName fileKey = Fulfilled ->
    size_read bucketName fileKey = inr 0%N ->
    TransferRun bucketName fileKey
      (Ok (failure_outcome empty_download)) (checked bucketName fileKey (inr 0%N))
| transfer_unresolved size e tr :
    download_promise bucketName fileKey = Fulfilled ->
    size_read bucketName fileKey = inr size -> size <> 0%N ->
    ResolveRun folder_name (checked bucketName fileKey (inr size)) (Throw e) tr ->
    TransferRun bucketName fileKey (Ok (failure_outcome e)) tr
| transfer_upload_failed size sharedFolder tr e tr' :
    download_promise bucketName fileKey = Fulfilled ->
    size_read bucketName fileKey = inr size -> size <> 0%N ->
    ResolveRun folder_name (checked bucketName fileKey (inr size))
      (Ok sharedFolder) tr ->
    UploadRun (driveId sharedFolder) (itemId sharedFolder)
      (download_path w fileKey) fileKey tr (Throw e) tr' ->
    TransferRun bucketName fileKey (Ok (failure_outcome e)) tr'
| transfer_upload_falsy size sharedFolder tr uploadSuccess tr' :
    download_promise bucketName fileKey = Fulfilled ->
    size_read bucketName fileKey = inr size -> size <> 0%N ->
    ResolveRun folder_name (checked bucketName fileKey (inr size))
      (Ok sharedFolder) tr ->
    UploadRun (driveId sharedFolder) (itemId sharedFolder)
      (download_path w fileKey) fileKey tr (Ok uploadSuccess) tr' ->
    truthy uploadSuccess = false ->
    TransferRun bucketName fileKey (Ok (failure_outcome upload_rejected)) tr'
| transfer_done size sharedFolder tr uploadSuccess tr' :
    download_promise bucketName fileKey = Fulfilled ->
    size_read bucketName fileKey = inr size -> size <> 0%N ->
    ResolveRun folder_name (checked bucketName fileKey (inr size))
      (Ok sharedFolder) tr ->
    UploadRun (driveId sharedFolder) (itemId sharedFolder)
      (download_path w fileKey) fileKey tr (Ok uploadSuccess) tr' ->
    truthy uploadSuccess = true ->
    TransferRun bucketName fileKey (Ok (success_outcome folder_name)) tr'.

Inductive HandlerRun (event : LambdaEvent) : Result Outcome -> Trace -> Prop :=
| run_no_record :
    Records event = [] ->
    HandlerRun event (Ok (failure_outcome no_record)) []
| run_bad_key record rest e :
    Records event = record :: rest ->
    decodeURIComponent (object_key record) = inl e ->
    HandlerRun event (Ok (failure_outcome e)) []
| run_transfer record rest fileKey res tr :
    Records event = record :: rest ->
    decodeURIComponent (object_key record) = inr fileKey ->
    TransferRun (bucket_name record) fileKey res tr ->
    HandlerRun event res tr.

End RunRelations.

(** ** Reading a trace *)

(** The steps of an invocation.  The code sends a POST only to the token
    endpoint, a GET only for the shared-items listing and a PUT only for the
    upload, so the method identifies the request. *)
Inductive Step : Type :=
| Download | CheckSize | FetchToken | ListShared | ReadLocal | Upload.

#[global] Instance Step_eq_dec : EqDecision Step.
Proof. solve_decision. Defined.

Definition step_of (e : Event) : Step :=
  match e with
  | EvS3Download _ _ _ _ => Download
  | EvStat _ _ => CheckSize
  | EvReadFile _ _ => ReadLocal
  | EvHttp req _ =>
      match req_method req with
      | POST => FetchToken
      | GET => ListShared
      | PUT => Upload
      end
  end.

(** ** Shared-items listings

    An entry of the [value] array of [GET /me/drive/sharedWithMe]: its name,
    whether it carries the [folder] facet, and the two identifiers of its
    [remoteItem]. *)
Record SharedItem : Type := mkSharedItem {
  item_name : string;
  item_is_folder : bool;
  item_driveId : string;
  item_id : string
}.

Definition item_value (it : SharedItem) : Value :=
  VObj (("name", VStr (item_name it))
        :: (if item_is_folder it
            then [("folder", VObj [("childCount", VNum 0)])]
            else [("file", VObj [])])
        ++ [("remoteItem",
             VObj [("id", VStr (item_id it));
                   ("parentReference", VObj [("driveId", VStr (item_driveId it))])])]).

Definition listing_body (items : list SharedItem) : Value :=
  VObj [("value", VArr (map item_value items))].


(** ** Concrete worlds and events *)

Definition example_event : LambdaEvent :=
  mkEvent [mkRecord "my-s3-bucket" "example.txt"].

Definition encoded_event : LambdaEvent :=
  mkEvent [mkRecord "my-s3-bucket" "folder%2Ffile.txt"].

(** An event with two records. *)
Definition two_record_event : LambdaEvent :=
  mkEvent [mkRecord "my-s3-bucket" "example.txt";
           mkRecord "other-bucket" "second%20file.bin"].

Definition example_env : gmap string string :=
  <["ONEDRIVE_SHARED_FOLDER" := "Reports"]>
    (<["AZURE_CLIENT_ID" := "client"]> (<["ONEDRIVE_REFRESH_TOKEN" := "refresh"]> ∅)).

Definition example_listing : list SharedItem :=
  [mkSharedItem "Reports" false "drive-0" "item-0";
   mkSharedItem "Archive" true "drive-1" "item-1";
   mkSharedItem "Reports" true "drive-2" "item-2";
   mkSharedItem "Reports" true "drive-3" "item-3"].

Definition complete_stream : list StreamEvent :=
  [ReadEnd; WriteFinish; StatSettled (inr 11%N)].

(** A world given by the answer to each kind of request; the token answer
    may depend on the requests made so far. *)
Definition simple_world (size : JsError + N) (token : Trace -> HttpResult)
    (listing upload : HttpResult) : World :=
  mkWorld example_env 1700000000000%N
    (fun _ _ _ _ => complete_stream)
    (fun _ _ => size)
    (fun _ _ => inr [Byte.x68; Byte.x69])
    (fun h req =>
       match req_method req with
       | POST => token h
       | GET => listing
       | PUT => upload
       end).

(** Every token request is answered with a new token. *)
Definition fresh_token (h : Trace) : HttpResult :=
  HttpResponse 200 (VObj [("access_token", VStr ("token-" +:+ pretty (length h)))]).

Definition world_ok : World :=
  simple_world (inr 11%N) fresh_token
    (HttpResponse 200 (listing_body example_listing))
    (HttpResponse 201 (VObj [("id", VStr "new-item")])).

Definition world_empty_file : World :=
  simple_world (inr 0%N) fresh_token
    (HttpResponse 200 (listing_body example_listing))
    (HttpResponse 201 (VObj [("id", VStr "new-item")])).

Definition world_unauthorized : World :=
  simple_world (inr 11%N)
    (fun _ => HttpResponse 401 (VObj [("error", VStr "invalid_grant")]))
    (HttpResponse 200 (listing_body example_listing))
    (HttpResponse 201 (VObj [("id", VStr "new-item")])).

Definition world_no_folder : World :=
  simple_world (inr 11%N) fresh_token
    (HttpResponse 200 (listing_body [mkSharedItem "Reports" false "drive-0" "item-0";
                                     mkSharedItem "Archive" true "drive-1" "item-1"]))
    (HttpResponse 201 (VObj [("id", VStr "new-item")])).

Definition world_empty_body : World :=
  simple_world (inr 11%N) fresh_token
    (HttpResponse 200 (listing_body example_listing))
    (HttpResponse 200 (VStr "")).

Definition world_tokenless : World :=
  simple_world (inr 11%N) (fun _ => HttpResponse 200 (VObj []))
    (HttpResponse 200 (listing_body example_listing))
    (HttpResponse 201 (VObj [("id", VStr "new-item")])).

(** ** Definitions for the claims *)

Definition json_message_error (message error : string) : string :=
  "{" +:+ quoted "message" +:+ ":" +:+ quoted message +:+ ","
      +:+ quoted "error" +:+ ":" +:+ quoted error +:+ "}".

Definition example_success_body : string :=
  "{" +:+ quoted "message" +:+ ":"
      +:+ quoted ("File uploaded successfully to shared folder "
                    +:+ str1 bslash +:+ str1 dquote +:+ "Reports"
                    +:+ str1 bslash +:+ str1 dquote)
      +:+ "}".


(** The key an event reads from S3, or puts into the upload address, is
    [fileKey]. *)
Definition uses_key (fileKey : string) (e : Event) : Prop :=
  match e with
  | EvS3Download _ key _ _ => key = fileKey
  | EvHttp req _ =>
      req_method req = PUT ->
      exists driveId itemId accessToken fileBuffer,
        req = upload_request driveId itemId fileKey accessToken fileBuffer
  | _ => True
  end.

(** ** Definitions for further properties *)

(** The steps of a complete invocation, in order. *)
Definition full_run : list Step :=
  [Download; CheckSize; FetchToken; ListShared; FetchToken; ReadLocal; Upload].

(** The error that axios throws for an answer, if it throws. *)
Definition http_error (r : HttpResult) : option JsError :=
  match r with
  | NetworkError err => Some err
  | HttpResponse st _ => if is_2xx st then None else Some (status_error st)
  end.

(** The error with which a step of the trace failed, if it did: the reason
    of a rejected download, the error of [fs.stat] or [fs.readFile], a
    transport error, or the error axios makes of a status outside 200..299. *)
Definition step_error (e : Event) : option JsError :=
  match e with
  | EvS3Download _ _ _ stream =>
      match promise (run_stream stream download_start) with
      | Rejected reason => Some reason
      | _ => None
      end
  | EvStat _ (inl err) => Some err
  | EvStat _ (inr _) => None
  | EvReadFile _ (inl err) => Some err
  | EvReadFile _ (inr _) => None
  | EvHttp _ r => http_error r
  end.

Definition failing_stream : list StreamEvent :=
  [ReadError (Error "NoSuchKey"); WriteError (Error "EIO")].

(** A world whose network is down when the listing is requested. *)
Definition world_offline : World :=
  simple_world (inr 11%N) fresh_token
    (NetworkError (Error "getaddrinfo ENOTFOUND graph.microsoft.com"))
    (HttpResponse 201 (VObj [("id", VStr "new-item")])).

(** An answer to the upload request after which the handler reports
    success. *)
Definition accepted_upload (ev : Event) : Prop :=
  exists req st d,
    ev = EvHttp req (HttpResponse st d)
    /\ req_method req = PUT /\ (st = 200 \/ st = 201) /\ truthy d = true.

(** The strings that [decodeURIComponent] and [path.extname] look into. *)
Definition percent_free (s : string) : bool :=
  forallb (fun c => negb (Ascii.eqb c "%")) (list_ascii_of_string s).

Definition no_slash (s : string) : bool :=
  forallb (fun c => negb (Ascii.eqb c "/")) (list_ascii_of_string s).

(** What follows a percent sign is not two hexadecimal digits. *)
Definition bad_escape (rest : string) : bool :=
  match rest with
  | String h1 (String h2 _) =>
      match hex_value h1, hex_value h2 with
      | Some _, Some _ => false
      | _, _ => true
      end
  | _ => true
  end.


Definition plus_event : LambdaEvent :=
  mkEvent [mkRecord "my-s3-bucket" "year+2024/report v1.txt"].

Definition truncated_event : LambdaEvent :=
  mkEvent [mkRecord "my-s3-bucket" "100%"].

Definition traversal_event : LambdaEvent :=
  mkEvent [mkRecord "my-s3-bucket" "..%2F..%2Fetc%2Fcron.d%2Fjob.sh"].

(** The path an event names in the local file system. *)
Definition event_path (e : Event) : option string :=
  match e with
  | EvS3Download _ _ path _ => Some path
  | EvStat path _ => Some path
  | EvReadFile path _ => Some path
  | EvHttp _ _ => None
  end.

(** The state of the scan when the characters after [pre] have been read. *)
Definition scanned (l pre : list ascii) (st : ExtScan) : Prop :=
  (exists suf, l = pre ++ suf)
  /\ ((scanEnd st = -1 /\ startDot st = -1 /\ matchedSlash st = true)
      \/ exists mid tail,
           l = pre ++ mid ++ tail
           /\ forallb (fun c => negb (Ascii.eqb c "/")) mid = true
           /\ scanEnd st = Z.of_nat (length pre + length mid)
           /\ matchedSlash st = false
           /\ (startDot st = -1
               \/ Z.of_nat (length pre) <= startDot st < scanEnd st)).

(** What the scan leaves: no extension, or one that lies inside a run of
    characters without a slash. *)
Definition scan_result (l : list ascii) (st : ExtScan) : Prop :=
  startDot st = -1 \/ scanEnd st = -1
  \/ exists a mid tail,
       l = a ++ mid ++ tail
       /\ forallb (fun c => negb (Ascii.eqb c "/")) mid = true
       /\ scanEnd st = Z.of_nat (length a + length mid)
       /\ Z.of_nat (length a) <= startDot st < scanEnd st.

(** A listing answer without the [value] array. *)
Definition world_empty_listing : World :=
  simple_world (inr 11%N) fresh_token (HttpResponse 200 (VObj []))
    (HttpResponse 201 (VObj [("id", VStr "new-item")])).



(** The upload request is answered 204, without a body. *)
Definition world_no_content : World :=
  simple_world (inr 11%N) fresh_token
    (HttpResponse 200 (listing_body example_listing))
    (HttpResponse 204 (VStr "")).

(** The character that a one-letter JSON escape stands for. *)
Definition json_unescape_char (k : ascii) : ascii :=
  if Ascii.eqb k "b" then "008"%char
  else if Ascii.eqb k "t" then "009"%char
  else if Ascii.eqb k "n" then "010"%char
  else if Ascii.eqb k "f" then "012"%char
  else if Ascii.eqb k "r" then "013"%char
  else k.

(** Reading back the inside of a JSON string literal. *)
Fixpoint json_unescape (s : string) : string :=
  match s with
  | EmptyString => ""
  | String c rest =>
      if Ascii.eqb c bslash then
        match rest with
        | String k rest' =>
            if Ascii.eqb k "u" then
              match rest' with
              | String _ (String _ (String hi (String lo rest''))) =>
                  match hex_value hi, hex_value lo with
                  | Some a, Some b =>
                      String (ascii_of_N (16 * a + b)) (json_unescape rest'')
                  | _, _ => ""
                  end
              | _ => ""
              end
            else String (json_unescape_char k) (json_unescape rest')
        | EmptyString => ""
        end
      else String c (json_unescape rest)
  end.

(** The key decodes to [report#1.txt]. *)
Definition hash_event : LambdaEvent :=
  mkEvent [mkRecord "my-s3-bucket" "report%231.txt"].


(** A listing that holds a folder entry without a name. *)
Definition nameless_listing : Value :=
  VObj [("value",
         VArr [item_value (mkSharedItem "Archive" true "drive-1" "item-1");
               VObj [("folder", VObj [("childCount", VNum 2)]);
                     ("remoteItem",
                      VObj [("id", VStr "item-9");
                            ("parentReference", VObj [("driveId", VStr "drive-9")])])];
               item_value (mkSharedItem "Reports" true "drive-2" "item-2")])].

Definition world_nameless_folder : World :=
  mkWorld (<["AZURE_CLIENT_ID" := "client"]> ∅) 1700000000000%N
    (fun _ _ _ _ => complete_stream)
    (fun _ _ => inr 11%N)
    (fun _ _ => inr [Byte.x68; Byte.x69])
    (fun h req =>
       match req_method req with
       | POST => fresh_token h
       | GET => HttpResponse 200 nameless_listing
       | PUT => HttpResponse 201 (VObj [("id", VStr "new-item")])
       end).
(** The write stream never finishes: the read stream ends and nothing
    follows. *)
Definition world_stalled : World :=
  mkWorld example_env 1700000000000%N
    (fun _ _ _ _ => [ReadEnd])
    (fun _ _ => inr 11%N)
    (fun _ _ => inr [Byte.x68; Byte.x69])
    (fun h req =>
       match req_method req with
       | POST => fresh_token h
       | GET => HttpResponse 200 (listing_body example_listing)
       | PUT => HttpResponse 201 (VObj [("id", VStr "new-item")])
       end).

(** * Proofs *)

(** ** The JavaScript built-ins on examples *)

Example extname_txt : extname "example.txt" = ".txt".
Proof. reflexivity. Qed.
Example extname_nested : extname "folder/file.tar.gz" = ".gz".
Proof. reflexivity. Qed.
Example extname_hidden : extname ".bashrc" = "".
Proof. reflexivity. Qed.
Example extname_dir_dot : extname "a.b/c" = "".
Proof. reflexivity. Qed.
Example extname_dotdot : extname ".." = "".
Proof. reflexivity. Qed.
Example extname_trailing : extname "a.txt//" = ".txt".
Proof. reflexivity. Qed.
Example extname_enddot : extname "file." = ".".
Proof. reflexivity. Qed.

Example decode_plain : decodeURIComponent "example.txt" = inr "example.txt".
Proof. reflexivity. Qed.
Example decode_slash : decodeURIComponent "folder%2Ffile.txt" = inr "folder/file.txt".
Proof. reflexivity. Qed.
Example decode_bad : decodeURIComponent "100%" = inl (URIError "URI malformed").
Proof. reflexivity. Qed.
Example decode_utf8 :
  decodeURIComponent "%C3%A9" = inr (string_of_octets [195; 169]%N).
Proof. reflexivity. Qed.
Example decode_overlong : decodeURIComponent "%C0%80" = inl (URIError "URI malformed").
Proof. reflexivity. Qed.
Example decode_lone_continuation : decodeURIComponent "%80" = inl (URIError "URI malformed").
Proof. reflexivity. Qed.
Example tostring_arr : ToString (VArr [VNum 1; VNull; VStr "a"]) = "1,,a".
Proof. reflexivity. Qed.

(** ** The code follows the run relations *)

Section Runs.
Variable w : World.

Lemma getOneDriveAccessToken_run (h : Trace) :
  getOneDriveAccessToken w h =
    (token_result (http_send w h (token_request w)),
     h ++ [EvHttp (token_request w) (http_send w h (token_request w))]).
Proof.
  unfold getOneDriveAccessToken, try_catch, bind, axios, token_result, is_2xx,
    status_error, lift, unlift, throw, ret.
  destruct (http_send w h (token_request w)) as [e | st d]; [reflexivity |].
  destruct ((200 <=? st) && (st <? 300)); [| reflexivity]. cbn.
  destruct (st =? 200); [| reflexivity].
  destruct (get_prop d "access_token"); reflexivity.
Qed.

Lemma token_result_settles (r : HttpResult) : token_result r <> Never.
Proof.
  destruct r as [e | st d]; cbn; [discriminate |].
  destruct (is_2xx st); [| discriminate].
  destruct (st =? 200); [| discriminate].
  destruct (get_prop d "access_token"); discriminate.
Qed.

Lemma resolve_result_settles folderName r : resolve_result folderName r <> Never.
Proof.
  destruct r as [e | st d]; cbn; [discriminate |].
  destruct (is_2xx st); [| discriminate].
  destruct (pick_folder folderName d); discriminate.
Qed.

Lemma upload_result_settles r : upload_result r <> Never.
Proof.
  destruct r as [e | st d]; cbn; [discriminate |].
  destruct (is_2xx st); [| discriminate].
  destruct ((st =? 201) || (st =? 200)); discriminate.
Qed.

Lemma resolveSharedFolder_run folderName h res tr :
  resolveSharedFolder w folderName h = (res, tr) ->
  ResolveRun w folderName h res tr.
Proof.
  unfold resolveSharedFolder, bind at 1. rewrite getOneDriveAccessToken_run.
  destruct (token_result (http_send w h (token_request w))) as [tok | e |] eqn:Htok.
  - set (h1 := h ++ [EvHttp (token_request w) (http_send w h (token_request w))]).
    pose (r2 := http_send w h1 (shared_request tok)).
    match goal with
    | |- ?run = _ -> _ =>
        assert (Hrun : run = (resolve_result folderName r2,
                              h1 ++ [EvHttp (shared_request tok) r2]))
    end.
    { unfold try_catch, bind, axios, resolve_result, pick_folder, is_2xx,
        status_error, not_found, mbind, throws_bind. fold r2.
      destruct r2 as [e | st d]; [reflexivity |].
      destruct ((200 <=? st) && (st <? 300)); [| reflexivity]. cbn.
      destruct (get_prop d "value") as [e | items]; [reflexivity |]. cbn.
      destruct (call_find items (folder_matches folderName)) as [e | sf];
        [reflexivity |]. cbn.
      destruct (negb (truthy sf)); [reflexivity |].
      destruct (get_prop sf "remoteItem") as [e | ri]; [reflexivity |]. cbn.
      destruct (get_prop ri "parentReference") as [e | pr]; [reflexivity |]. cbn.
      destruct (get_prop pr "driveId") as [e | dr]; [reflexivity |]. cbn.
      destruct (get_prop ri "id") as [e | it]; reflexivity. }
    rewrite Hrun. intros [= <- <-]. subst h1.
    rewrite <- app_assoc. cbn [app].
    eapply resolve_listed; eauto; reflexivity.
  - intros [= <- <-]. eapply resolve_without_token; eauto; reflexivity.
  - exfalso. eapply token_result_settles; eauto.
Qed.

Lemma uploadFileToSharedFolder_run driveId folderItemId filePath fileName h res tr :
  uploadFileToSharedFolder w driveId folderItemId filePath fileName h = (res, tr) ->
  UploadRun w driveId folderItemId filePath fileName h res tr.
Proof.
  unfold uploadFileToSharedFolder, bind at 1. rewrite getOneDriveAccessToken_run.
  destruct (token_result (http_send w h (token_request w))) as [tok | e |] eqn:Htok.
  - unfold try_catch, bind, readFile, lift.
    set (h1 := h ++ [EvHttp (token_request w) (http_send w h (token_request w))]).
    destruct (fs_readFile w h1 filePath) as [e | buf] eqn:Hread.
    + cbn. intros [= <- <-]. subst h1. rewrite <- app_assoc. cbn [app].
      eapply upload_unreadable; eauto; reflexivity.
    + cbn.
      set (h2 := h1 ++ [EvReadFile filePath (inr buf)]).
      set (req := upload_request driveId folderItemId fileName tok buf).
      pose (r2 := http_send w h2 req).
      match goal with
      | |- ?run = _ -> _ =>
          assert (Hrun : run = (upload_result r2, h2 ++ [EvHttp req r2]))
      end.
      { unfold axios, upload_result, is_2xx, status_error. fold r2.
        destruct r2 as [e | st d]; [reflexivity |].
        destruct ((200 <=? st) && (st <? 300)); [| reflexivity]. cbn.
        destruct ((st =? 201) || (st =? 200)); reflexivity. }
      rewrite Hrun. intros [= <- <-]. subst h2 h1.
      rewrite <- !app_assoc. cbn [app].
      eapply upload_sent; eauto; try reflexivity.
      unfold answers. subst r2. rewrite <- !app_assoc. reflexivity.
  - intros [= <- <-]. eapply upload_without_token; eauto; reflexivity.
  - exfalso. eapply token_result_settles; eauto.
Qed.

Lemma never_uploaded_settles driveId folderItemId filePath fileName h tr :
  ~ UploadRun w driveId folderItemId filePath fileName h Never tr.
Proof.
  intros Hrun. inversion Hrun as [| | r1 tok buf r2 _ _ _ _ Hres].
  revert Hres. apply upload_result_settles.
Qed.

Lemma never_resolved_settles folderName h tr : ~ ResolveRun w folderName h Never tr.
Proof.
  intros Hrun. inversion Hrun as [| r1 tok r2 _ _ _ Hres].
  revert Hres. apply resolve_result_settles.
Qed.

Lemma invoke_run event res tr :
  invoke w event = (res, tr) -> HandlerRun w event res tr.
Proof.
  unfold invoke, handler, try_catch, bind at 1.
  destruct (Records event) as [| record rest] eqn:Hrec.
  { cbv [ret throw]. intros [= <- <-]. eapply run_no_record; eauto. }
  unfold ret at 1. unfold bind at 1.
  destruct (decodeURIComponent (object_key record)) as [e | fileKey] eqn:Hkey.
  { cbv [lift ret throw]. intros [= <- <-]. eapply run_bad_key; eauto. }
  intros Hrun. eapply run_transfer; eauto. revert Hrun.
  unfold lift, ret at 1, bind at 1, downloadFileFromS3. cbn [app].
  fold (s3_stream w (bucket_name record) fileKey).
  fold (download_promise w (bucket_name record) fileKey).
  fold (downloaded w (bucket_name record) fileKey).
  destruct (download_promise w (bucket_name record) fileKey) as [| | reason] eqn:Hdl.
  { intros [= <- <-]. eapply transfer_pending; eauto. }
  2:{ cbv [ret]. intros [= <- <-]. eapply transfer_rejected; eauto. }
  unfold bind at 1, stat. cbn [app].
  fold (size_read w (bucket_name record) fileKey).
  destruct (size_read w (bucket_name record) fileKey) as [e | size] eqn:Hsize.
  { cbv [lift ret throw]. intros [= <- <-]. eapply transfer_stat_failed; eauto. }
  unfold lift, ret at 1.
  destruct (N.eqb_spec size 0) as [-> | Hnz].
  { cbv [ret throw]. intros [= <- <-]. eapply transfer_empty; eauto. }
  fold (checked w (bucket_name record) fileKey (inr size)). fold (folder_name w).
  unfold bind at 1.
  destruct (resolveSharedFolder w (folder_name w)
              (checked w (bucket_name record) fileKey (inr size)))
    as [[sharedFolder | e |] tr1] eqn:Hres;
    apply resolveSharedFolder_run in Hres.
  2:{ cbv [ret]. intros [= <- <-]. eapply transfer_unresolved; eauto. }
  2:{ now apply never_resolved_settles in Hres. }
  unfold bind at 1.
  destruct (uploadFileToSharedFolder w (driveId sharedFolder) (itemId sharedFolder)
              (download_path w fileKey) fileKey tr1)
    as [[uploadSuccess | e |] tr2] eqn:Hup;
    apply uploadFileToSharedFolder_run in Hup.
  2:{ cbv [ret]. intros [= <- <-]. eapply transfer_upload_failed; eauto. }
  2:{ now apply never_uploaded_settles in Hup. }
  destruct (truthy uploadSuccess) eqn:Htruthy; cbv [negb ret throw];
    intros [= <- <-].
  - eapply transfer_done; eauto.
  - eapply transfer_upload_falsy; eauto.
Qed.

End Runs.

(** ** The claims *)


Lemma upload_result_ok st d :
  st = 200 \/ st = 201 -> upload_result (HttpResponse st d) = Ok d.
Proof. intros [-> | ->]; reflexivity. Qed.



Lemma handler_no_record (w : World) :
  invoke w (mkEvent []) = (Ok (failure_outcome no_record), []).
Proof. reflexivity. Qed.

Ltac split_runs :=
  repeat match goal with
  | H : HandlerRun _ _ _ _ |- _ => inversion H; subst; clear H
  | H : TransferRun _ _ _ _ _ |- _ => inversion H; subst; clear H
  | H : ResolveRun _ _ _ _ _ |- _ => inversion H; subst; clear H
  | H : UploadRun _ _ _ _ _ _ _ _ |- _ => inversion H; subst; clear H
  end.

(** Membership of an event in a trace that the run relations have made
    explicit. *)
Ltac trace_member H :=
  unfold checked in H; cbn [app In] in H;
  repeat (destruct H as [H | H]);
  try (destruct H; fail);
  simplify_eq.


Lemma failure_body (err : JsError) :
  failure_outcome err =
    mkOutcome 500
      (json_message_error "Failed to process shared folder"
         (json_escape (err_message err))).
Proof. reflexivity. Qed.




(** The handler never rejects: it returns an outcome with status 200 or
    500, or it waits for ever on a download that never settles. *)
Lemma handler_outcomes (w : World) (event : LambdaEvent) :
  fst (invoke w event) = Never
  \/ exists o, fst (invoke w event) = Ok o /\ (statusCode o = 200 \/ statusCode o = 500).
Proof.
  destruct (invoke w event) as [res tr] eqn:Hrun. apply invoke_run in Hrun.
  cbn [fst]. destruct Hrun as [| | ? ? ? ? ? _ _ Htransfer];
    [right; eexists; split; [reflexivity | right; reflexivity] ..|].
  destruct Htransfer; auto;
    right; eexists; (split; [reflexivity |]); auto.
Qed.

(** C5.  When the size read after the download is 0, the handler returns
    the failure outcome and the trace holds the download and the size check
    only: no token request, no shared-items request, no upload request. *)
Theorem handler_empty_download (w : World) (event : LambdaEvent)
    (res : Result Outcome) (tr : Trace) (path : string) :
  invoke w event = (res, tr) ->
  In (EvStat path (inr 0%N)) tr ->
  res = Ok (mkOutcome 500
              (json_message_error "Failed to process shared folder"
                 "Downloaded file is empty."))
  /\ map step_of tr = [Download; CheckSize].
Proof.
  intros Hrun Hin. apply invoke_run in Hrun.
  split_runs; trace_member Hin; try congruence.
  split; reflexivity.
Qed.

Lemma handler_empty_download_witness :
  In (EvStat "/tmp/download-1700000000000.txt" (inr 0%N))
     (snd (invoke world_empty_file example_event))
  /\ fst (invoke world_empty_file example_event) =
       Ok (mkOutcome 500
             (json_message_error "Failed to process shared folder"
                "Downloaded file is empty."))
  /\ map step_of (snd (invoke world_empty_file example_event)) = [Download; CheckSize].
Proof.
  assert (Hin : In (EvStat "/tmp/download-1700000000000.txt" (inr 0%N))
                  (snd (invoke world_empty_file example_event))).
  { vm_compute. right. left. reflexivity. }
  split; [exact Hin |].
  apply (handler_empty_download world_empty_file example_event _ _
           "/tmp/download-1700000000000.txt").
  - apply surjective_pairing.
  - exact Hin.
Defined.

(** C10.  A PUT answered with status 200 or 201 makes
    [uploadFileToSharedFolder] return the response body, whatever it is;
    when that body is falsy the handler returns the 500 outcome whose error
    text is the handler's own "Failed to upload ..." message. *)
Theorem upload_falsy_body_fails (w : World) :
  (forall driveId folderItemId filePath fileName h res tr req st d,
      uploadFileToSharedFolder w driveId folderItemId filePath fileName h = (res, tr) ->
      last tr = Some (EvHttp req (HttpResponse st d)) ->
      req_method req = PUT -> st = 200 \/ st = 201 ->
      res = Ok d)
  /\ (forall event res tr req st d,
      invoke w event = (res, tr) ->
      In (EvHttp req (HttpResponse st d)) tr ->
      req_method req = PUT -> st = 200 \/ st = 201 -> truthy d = false ->
      res = Ok (mkOutcome 500
                  (json_message_error "Failed to process shared folder"
                     "Failed to upload file to shared folder on OneDrive."))).
Proof.
  split.
  - intros driveId folderItemId filePath fileName h res tr req st d Hrun Hlast Hput Hst.
    apply uploadFileToSharedFolder_run in Hrun.
    inversion Hrun; subst; clear Hrun;
      (rewrite last_app in Hlast; cbn in Hlast; simplify_eq); try discriminate.
    now apply upload_result_ok.
  - intros event res tr req st d Hrun Hin Hput Hst Hfalsy.
    apply invoke_run in Hrun.
    split_runs; trace_member Hin; try discriminate;
      match goal with
      | H' : upload_result _ = _ |- _ =>
          rewrite (upload_result_ok _ _ Hst) in H'; simplify_eq
      end; try congruence.
    reflexivity.
Qed.

Lemma upload_falsy_body_fails_witness :
  fst (uploadFileToSharedFolder world_empty_body (VStr "drive-2") (VStr "item-2")
         "/tmp/download-1700000000000.txt" "example.txt" []) = Ok (VStr "")
  /\ fst (invoke world_empty_body example_event) =
       Ok (mkOutcome 500
             (json_message_error "Failed to process shared folder"
                "Failed to upload file to shared folder on OneDrive.")).
Proof.
  destruct (upload_falsy_body_fails world_empty_body) as [Hfn Hhandler].
  split.
  - eapply Hfn with (st := 200).
    + apply surjective_pairing.
    + vm_compute. reflexivity.
    + reflexivity.
    + left. reflexivity.
  - eapply Hhandler with (st := 200) (d := VStr "").
    + apply surjective_pairing.
    + vm_compute. do 6 right. left. reflexivity.
    + reflexivity.
    + left. reflexivity.
    + reflexivity.
Defined.



(** C8.  In an invocation that returns status 200 the token endpoint is
    asked twice: once by the resolver, whose token goes into the listing
    request, and once more by the uploader, whose PUT carries the token of
    that second answer. *)
Theorem token_fetched_per_call (w : World) (event : LambdaEvent)
    (o : Outcome) (tr : Trace) :
  invoke w event = (Ok o, tr) ->
  statusCode o = 200 ->
  exists pre r1 token1 r2 r3 token2 path fileBuffer driveId itemId fileName r4,
    tr = pre ++ [EvHttp (token_request w) r1;
                 EvHttp (shared_request token1) r2;
                 EvHttp (token_request w) r3;
                 EvReadFile path (inr fileBuffer);
                 EvHttp (upload_request driveId itemId fileName token2 fileBuffer) r4]
    /\ map step_of pre = [Download; CheckSize]
    /\ token_result r1 = Ok token1
    /\ http_send w (pre ++ [EvHttp (token_request w) r1;
                            EvHttp (shared_request token1) r2])
         (token_request w) = r3
    /\ token_result r3 = Ok token2
    /\ length (filter (fun e => bool_decide (step_of e = FetchToken)) tr) = 2%nat.
Proof.
  intros Hrun Hstatus. apply invoke_run in Hrun.
  split_runs; try discriminate Hstatus.
  rewrite <- app_assoc. cbn [app].
  do 12 eexists.
  split; [reflexivity |].
  split; [reflexivity |].
  split; [eassumption |].
  split; [eassumption |].
  split; [eassumption |].
  reflexivity.
Qed.

Lemma token_fetched_per_call_witness :
  exists pre r1 token1 r2 r3 token2 path fileBuffer driveId itemId fileName r4,
    snd (invoke world_ok example_event) =
      pre ++ [EvHttp (token_request world_ok) r1;
              EvHttp (shared_request token1) r2;
              EvHttp (token_request world_ok) r3;
              EvReadFile path (inr fileBuffer);
              EvHttp (upload_request driveId itemId fileName token2 fileBuffer) r4]
    /\ map step_of pre = [Download; CheckSize]
    /\ token_result r1 = Ok token1
    /\ http_send world_ok (pre ++ [EvHttp (token_request world_ok) r1;
                                  EvHttp (shared_request token1) r2])
         (token_request world_ok) = r3
    /\ token_result r3 = Ok token2
    /\ length (filter (fun e => bool_decide (step_of e = FetchToken))
                 (snd (invoke world_ok example_event))) = 2%nat.
Proof.
  apply (token_fetched_per_call world_ok example_event
           (mkOutcome 200 example_success_body)).
  - vm_compute. reflexivity.
  - reflexivity.
Defined.

(** In [world_ok] the two tokens differ, and each request carries its own. *)
Example tokens_not_reused :
  map (fun e => match e with
                | EvHttp req _ => req_headers req !! 0%nat
                | _ => None
                end)
      (snd (invoke world_ok example_event))
  = [None; None;
     Some ("Content-Type", "application/x-www-form-urlencoded");
     Some ("Authorization", "Bearer token-2");
     Some ("Content-Type", "application/x-www-form-urlencoded");
     None;
     Some ("Authorization", "Bearer token-4")].
Proof. vm_compute. reflexivity. Qed.




Lemma token_result_rejected st d :
  st <> 200 -> token_result (HttpResponse st d) = Throw (token_failure st).
Proof.
  intros Hst. unfold token_failure. cbn [token_result].
  destruct (is_2xx st); [| reflexivity].
  destruct (Z.eqb_spec st 200); [contradiction | reflexivity].
Qed.

(** C2.  What the code does when the token endpoint answers with a failure
    status: the handler returns status 500, the body carries the text of the
    authentication error in [error] and the message
    ["Failed to process shared folder"] (not ["Error processing file"]), and
    the failed token request is the last event of the invocation: nothing is
    done to the downloaded file afterwards. *)
Theorem token_failure_outcome (w : World) (event : LambdaEvent)
    (res : Result Outcome) (tr : Trace) (req : HttpRequest) (st : Z) (d : Value) :
  invoke w event = (res, tr) ->
  In (EvHttp req (HttpResponse st d)) tr ->
  req_method req = POST -> st <> 200 ->
  res = Ok (mkOutcome 500
              (json_message_error "Failed to process shared folder"
                 (json_escape (err_message (token_failure st)))))
  /\ last tr = Some (EvHttp req (HttpResponse st d))
  /\ Forall (fun e => step_of e <> Upload /\ step_of e <> ReadLocal) tr.
Proof.
  intros Hrun Hin Hpost Hst. apply invoke_run in Hrun.
  pose proof (token_result_rejected st d Hst) as Hres.
  destruct Hrun as [Hrec | record rest e Hrec Hkey
                   | record rest fileKey res tr Hrec Hkey Htransfer];
    [destruct Hin | destruct Hin |].
  destruct Htransfer; split_runs; trace_member Hin; try discriminate;
    repeat match goal with
    | H : token_result (HttpResponse st d) = _ |- _ =>
        rewrite Hres in H; simplify_eq
    end.
  - repeat split; repeat constructor; discriminate.
  - repeat split; repeat constructor; discriminate.
Qed.

Lemma token_failure_outcome_witness :
  fst (invoke world_unauthorized example_event) =
    Ok (mkOutcome 500
          (json_message_error "Failed to process shared folder"
             "Request failed with status code 401"))
  /\ map step_of (snd (invoke world_unauthorized example_event)) =
       [Download; CheckSize; FetchToken]
  /\ json_message_error "Failed to process shared folder"
       "Request failed with status code 401"
     <> json_message_error "Error processing file"
          "Request failed with status code 401".
Proof.
  pose proof (token_failure_outcome world_unauthorized example_event
                (fst (invoke world_unauthorized example_event))
                (snd (invoke world_unauthorized example_event))
                (token_request world_unauthorized) 401
                (VObj [("error", VStr "invalid_grant")])) as H.
  destruct H as (Hres & _ & _).
  - apply surjective_pairing.
  - vm_compute. do 2 right. left. reflexivity.
  - reflexivity.
  - discriminate.
  - split; [exact Hres |]. split; [vm_compute; reflexivity |].
    vm_compute. discriminate.
Defined.

(** C3, as the code has it.  When the key of the first record
    percent-decodes, the decoded key is what is read from S3 and the same
    decoded key is the file name of every upload request; when it does not
    decode, the handler fails before any request. *)
Theorem handler_uses_decoded_key (w : World) (event : LambdaEvent)
    (record : S3Record) (rest : list S3Record) (res : Result Outcome) (tr : Trace) :
  Records event = record :: rest ->
  invoke w event = (res, tr) ->
  match decodeURIComponent (object_key record) with
  | inr fileKey =>
      hd_error tr = Some (downloaded w (bucket_name record) fileKey)
      /\ Forall (uses_key fileKey) tr
  | inl e => res = Ok (failure_outcome e) /\ tr = []
  end.
Proof.
  intros Hrec Hrun. apply invoke_run in Hrun.
  destruct Hrun as [Hrec' | record' rest' e Hrec' Hkey
                   | record' rest' fileKey res tr Hrec' Hkey Htransfer];
    rewrite Hrec in Hrec'; simplify_eq.
  - rewrite Hkey. split; reflexivity.
  - rewrite Hkey.
    destruct Htransfer; split_runs; unfold checked; cbn [app hd_error];
      (split; [reflexivity |]);
      repeat (apply Forall_cons; split);
      try apply Forall_nil; cbn; try discriminate; try reflexivity;
      intros _; eauto.
Qed.

Lemma handler_uses_decoded_key_witness :
  hd_error (snd (invoke world_ok encoded_event)) =
    Some (downloaded world_ok "my-s3-bucket" "folder/file.txt")
  /\ Forall (uses_key "folder/file.txt") (snd (invoke world_ok encoded_event)).
Proof.
  apply (handler_uses_decoded_key world_ok encoded_event
           (mkRecord "my-s3-bucket" "folder%2Ffile.txt") []
           (fst (invoke world_ok encoded_event))).
  - reflexivity.
  - apply surjective_pairing.
Defined.

(** C3, as stated, fails: for the key [folder%2Ffile.txt] the upload
    request names the file [folder/file.txt], not the raw key. *)
Lemma raw_key_not_uploaded :
  exists req r,
    last (snd (invoke world_ok encoded_event)) = Some (EvHttp req r)
    /\ req_method req = PUT
    /\ req_url req = upload_url (VStr "drive-2") (VStr "item-2") "folder/file.txt"
    /\ req_url req <> upload_url (VStr "drive-2") (VStr "item-2") "folder%2Ffile.txt".
Proof.
  eexists. eexists. split; [vm_compute; reflexivity |].
  split; [reflexivity |]. split; [reflexivity |]. vm_compute. discriminate.
Qed.

(** C9.  The handler processes the first record of the event and no other.
    The records after the first change neither the outcome nor any request;
    when the key of the first record decodes, the invocation starts with
    the download of that key from the bucket of the first record, downloads
    nothing else, and every upload request carries that key; when it does
    not decode, the handler fails at once, whatever the other records are. *)
Theorem handler_first_record_only (w : World) (record : S3Record) (rest : list S3Record) :
  invoke w (mkEvent (record :: rest)) = invoke w (mkEvent [record])
  /\ (forall fileKey,
        decodeURIComponent (object_key record) = inr fileKey ->
        exists tail,
          snd (invoke w (mkEvent (record :: rest)))
            = downloaded w (bucket_name record) fileKey :: tail
          /\ Forall (fun e => step_of e <> Download) tail
          /\ Forall (uses_key fileKey) tail)
  /\ (forall e,
        decodeURIComponent (object_key record) = inl e ->
        invoke w (mkEvent (record :: rest)) = (Ok (failure_outcome e), [])).
Proof.
  split; [reflexivity |].
  destruct (invoke w (mkEvent (record :: rest))) as [res tr] eqn:Hrun.
  apply invoke_run in Hrun. cbn [snd].
  destruct Hrun as [Hrec | record' rest' e Hrec Hkey
                   | record' rest' fileKey res tr Hrec Hkey Htransfer];
    cbn [Records] in Hrec; [discriminate Hrec | |];
    injection Hrec as <- <-.
  - split; [intros fileKey Hkey'; congruence |].
    intros e' Hkey'. rewrite Hkey in Hkey'. injection Hkey' as <-. reflexivity.
  - split; [| intros e Hkey'; congruence].
    intros fileKey' Hkey'. rewrite Hkey in Hkey'. injection Hkey' as <-.
    destruct Htransfer; split_runs; unfold checked; cbn [app];
      (eexists; split; [reflexivity |]);
      (split; repeat (apply Forall_cons; split); try apply Forall_nil;
       cbn; try discriminate; try reflexivity; intros _; eauto).
Qed.

Lemma handler_first_record_only_witness :
  invoke world_ok two_record_event = invoke world_ok example_event
  /\ exists tail,
       snd (invoke world_ok two_record_event)
         = downloaded world_ok "my-s3-bucket" "example.txt" :: tail
       /\ Forall (fun e => step_of e <> Download) tail
       /\ Forall (uses_key "example.txt") tail.
Proof.
  destruct (handler_first_record_only world_ok
              (mkRecord "my-s3-bucket" "example.txt")
              [mkRecord "other-bucket" "second%20file.bin"])
    as (Hsame & Hfirst & _).
  split; [exact Hsame |]. apply Hfirst. reflexivity.
Defined.

(** C6, as the code has it.  [getOneDriveAccessToken] sends one request.  A
    transport error is thrown unchanged; every status other than 200 makes
    it throw; with status 200 it returns the [access_token] property of the
    body without looking at it, so that an object without that field gives
    [undefined] and no error. *)
Theorem token_fetch_outcomes (w : World) (h : Trace) (res : Result Value) (tr : Trace) :
  getOneDriveAccessToken w h = (res, tr) ->
  exists r,
    r = http_send w h (token_request w)
    /\ tr = h ++ [EvHttp (token_request w) r]
    /\ (forall e, r = NetworkError e -> res = Throw e)
    /\ (forall st d, r = HttpResponse st d -> st <> 200 ->
          exists e, res = Throw e)
    /\ (forall d, r = HttpResponse 200 d -> res = unlift (get_prop d "access_token"))
    /\ (forall fields, r = HttpResponse 200 (VObj fields) ->
          assoc_lookup fields "access_token" = VUndefined ->
          res = Ok VUndefined).
Proof.
  rewrite getOneDriveAccessToken_run. intros [= <- <-].
  exists (http_send w h (token_request w)).
  split; [reflexivity |]. split; [reflexivity |].
  repeat split.
  - intros e ->. reflexivity.
  - intros st d -> Hst. cbn [token_result].
    destruct (is_2xx st); [| eauto].
    destruct (Z.eqb_spec st 200); [contradiction | eauto].
  - intros d ->. reflexivity.
  - intros fields -> Hnone. cbn. now rewrite Hnone.
Qed.

Lemma token_fetch_outcomes_witness :
  fst (getOneDriveAccessToken world_unauthorized []) =
    Throw (AxiosError "Request failed with status code 401")
  /\ fst (getOneDriveAccessToken world_tokenless []) = Ok VUndefined.
Proof.
  split.
  - destruct (token_fetch_outcomes world_unauthorized []
                (fst (getOneDriveAccessToken world_unauthorized []))
                (snd (getOneDriveAccessToken world_unauthorized [])))
      as (r & Hr & _ & _ & Hstatus & _).
    + apply surjective_pairing.
    + destruct (Hstatus 401 (VObj [("error", VStr "invalid_grant")])) as [e He].
      * rewrite Hr. reflexivity.
      * discriminate.
      * reflexivity.
  - destruct (token_fetch_outcomes world_tokenless []
                (fst (getOneDriveAccessToken world_tokenless []))
                (snd (getOneDriveAccessToken world_tokenless [])))
      as (r & Hr & _ & _ & _ & _ & Hnofield).
    + apply surjective_pairing.
    + apply (Hnofield []); [rewrite Hr |]; reflexivity.
Defined.

(** C6, as stated, fails: the token endpoint answers 200 with a body that
    has no [access_token], and [getOneDriveAccessToken] returns (it returns
    [undefined]) instead of failing. *)
Lemma tokenless_body_accepted :
  http_send world_tokenless [] (token_request world_tokenless) =
    HttpResponse 200 (VObj [])
  /\ get_prop (VObj []) "access_token" = inr VUndefined
  /\ fst (getOneDriveAccessToken world_tokenless []) = Ok VUndefined
  /\ ~ (exists e, fst (getOneDriveAccessToken world_tokenless []) = Throw e).
Proof.
  repeat split; try reflexivity. intros [e He]. discriminate He.
Qed.

(** ** The promise of [downloadFileFromS3] *)

Lemma run_stream_app (pre post : list StreamEvent) (d : DownloadState) :
  run_stream (pre ++ post) d = run_stream post (run_stream pre d).
Proof. apply fold_left_app. Qed.

Lemma on_event_settled (d : DownloadState) (ev : StreamEvent) :
  promise d <> Pending -> promise (on_event d ev) = promise d.
Proof.
  intros Hd. destruct d as [p n], ev as [e | | | r | e]; cbn in *;
    try reflexivity; try (destruct p; [contradiction | reflexivity..]).
  destruct n; [reflexivity |].
  destruct r; destruct p; cbn; try reflexivity; contradiction.
Qed.

Lemma settled_stays (evs : list StreamEvent) (d : DownloadState) :
  promise d <> Pending -> promise (run_stream evs d) = promise d.
Proof.
  revert d. induction evs as [| ev evs IH]; intros d Hd; [reflexivity |].
  cbn [run_stream fold_left]. fold (run_stream evs (on_event d ev)).
  rewrite IH; rewrite on_event_settled; auto.
Qed.

Lemma settlements_settled (evs : list StreamEvent) (d : DownloadState) :
  promise d <> Pending -> settlements evs d = 0%nat.
Proof.
  revert d. induction evs as [| ev evs IH]; intros d Hd; [reflexivity |].
  cbn [settlements]. rewrite IH by (rewrite on_event_settled; auto).
  destruct (promise d); [contradiction | reflexivity..].
Qed.

Lemma settlements_pending (evs : list StreamEvent) (d : DownloadState) :
  promise d = Pending ->
  settlements evs d =
    if is_pending (promise (run_stream evs d)) then 0%nat else 1%nat.
Proof.
  revert d. induction evs as [| ev evs IH]; intros d Hd.
  - cbn. now rewrite Hd.
  - cbn [settlements run_stream fold_left]. fold (run_stream evs (on_event d ev)).
    rewrite Hd. cbn [is_pending andb].
    destruct (promise (on_event d ev)) eqn:Hnext; cbn [is_pending negb].
    + rewrite IH by assumption. reflexivity.
    + rewrite settlements_settled, settled_stays by (rewrite Hnext; discriminate).
      rewrite Hnext. reflexivity.
    + rewrite settlements_settled, settled_stays by (rewrite Hnext; discriminate).
      rewrite Hnext. reflexivity.
Qed.

Lemma fulfilled_after_finish (evs : list StreamEvent) (d : DownloadState) :
  promise d = Pending ->
  promise (run_stream evs d) = Fulfilled ->
  ((0 < awaiting_stat d)%nat
   /\ exists pre size post, evs = pre ++ StatSettled (inr size) :: post)
  \/ (exists pre mid size post,
        evs = pre ++ WriteFinish :: mid ++ StatSettled (inr size) :: post).
Proof.
  revert d. induction evs as [| ev evs IH]; intros d Hd Hfinal.
  { cbn in Hfinal. congruence. }
  cbn [run_stream fold_left] in Hfinal. fold (run_stream evs (on_event d ev)) in Hfinal.
  assert (Hrejected : forall e,
             promise (on_event d ev) = Rejected e -> False).
  { intros e He. rewrite settled_stays in Hfinal by (rewrite He; discriminate).
    congruence. }
  assert (Hcons : forall d',
             on_event d ev = d' -> promise d' = Pending ->
             awaiting_stat d' = awaiting_stat d ->
             ((0 < awaiting_stat d)%nat
              /\ exists pre size post, ev :: evs = pre ++ StatSettled (inr size) :: post)
             \/ (exists pre mid size post,
                   ev :: evs = pre ++ WriteFinish :: mid ++ StatSettled (inr size) :: post)).
  { intros d' Hev Hp Ha. rewrite Hev in Hfinal.
    destruct (IH d' Hp Hfinal) as [[Hpos (pre & size & post & ->)]
                                  | (pre & mid & size & post & ->)].
    - left. split; [lia |]. now exists (ev :: pre), size, post.
    - right. now exists (ev :: pre), mid, size, post. }
  destruct d as [p n]. cbn in Hd. subst p.
  destruct ev as [e | | | r | e].
  - exfalso. eapply Hrejected. reflexivity.
  - eapply Hcons; reflexivity.
  - right. cbn in Hfinal.
    destruct (IH (mkDownload Pending (S n)) eq_refl Hfinal)
      as [[_ (pre & size & post & ->)] | (pre & mid & size & post & ->)].
    + now exists [], pre, size, post.
    + now exists (WriteFinish :: pre), mid, size, post.
  - destruct n as [| k].
    + eapply Hcons; reflexivity.
    + destruct r as [err | size].
      * exfalso. eapply Hrejected. reflexivity.
      * left. split; [cbn; lia |]. now exists [], size, evs.
  - exfalso. eapply Hrejected. reflexivity.
Qed.

(** While a ['finish'] listener awaits its [fs.stat], or once the promise is
    settled, every further event keeps it that way. *)
Lemma awaiting_or_settled (evs : list StreamEvent) (d : DownloadState) :
  (0 < awaiting_stat d)%nat \/ promise d <> Pending ->
  (0 < awaiting_stat (run_stream evs d))%nat
  \/ promise (run_stream evs d) <> Pending.
Proof.
  revert d. induction evs as [| ev evs IH]; intros d Hd; [exact Hd |].
  cbn [run_stream fold_left]. fold (run_stream evs (on_event d ev)).
  apply IH. destruct d as [p n], ev as [e | | | r | e]; cbn in *.
  - right. destruct p; discriminate.
  - exact Hd.
  - left. lia.
  - destruct n as [| k]; cbn.
    + destruct Hd as [Hd | Hd]; [lia | now right].
    + right. destruct r, p; discriminate.
  - right. destruct p; discriminate.
Qed.

Lemma finish_then_stat_settles (pre mid post : list StreamEvent) (r : JsError + N) :
  promise (run_stream (pre ++ WriteFinish :: mid ++ StatSettled r :: post)
             download_start) <> Pending.
Proof.
  rewrite run_stream_app. cbn [run_stream fold_left].
  fold (run_stream (mid ++ StatSettled r :: post)).
  rewrite run_stream_app. cbn [run_stream fold_left]. fold (run_stream post).
  set (d := on_event (run_stream pre download_start) WriteFinish).
  assert (Hd : (0 < awaiting_stat d)%nat \/ promise d <> Pending).
  { left. subst d. cbn. lia. }
  apply (awaiting_or_settled mid) in Hd.
  fold (run_stream mid d) in *.
  assert (Hnext : promise (on_event (run_stream mid d) (StatSettled r)) <> Pending).
  { destruct (run_stream mid d) as [p n]. cbn in *.
    destruct n as [| k]; cbn.
    - destruct Hd as [Hd | Hd]; [lia | exact Hd].
    - destruct r, p; discriminate. }
  rewrite settled_stays; assumption.
Qed.

Lemma downloadFileFromS3_settled (w : World) (bucketName fileKey downloadPath : string)
    (h : Trace) :
  fst (downloadFileFromS3 w bucketName fileKey downloadPath h) =
    match promise (run_stream (s3_transfer w h bucketName fileKey downloadPath)
                     download_start) with
    | Fulfilled => Ok tt
    | Rejected reason => Throw reason
    | Pending => Never
    end.
Proof.
  unfold downloadFileFromS3.
  destruct (promise (run_stream _ download_start)); reflexivity.
Qed.

(** C7.  Whatever the two streams emit, the promise of
    [downloadFileFromS3] changes state at most once, and exactly once when
    it settles at all; once settled it keeps its state; it is fulfilled only
    after the write stream's ['finish'] (and the [fs.stat] that listener
    awaits), never by the read stream's ['end']; a ['finish'] whose
    [fs.stat] has settled leaves it settled; an ['error'] of either stream
    settles it, with that error when it was still pending. *)
Theorem download_settles_once (evs : list StreamEvent) :
  (settlements evs download_start <= 1)%nat
  /\ (promise (run_stream evs download_start) <> Pending ->
      settlements evs download_start = 1%nat)
  /\ (forall pre post,
        evs = pre ++ post ->
        promise (run_stream pre download_start) <> Pending ->
        promise (run_stream evs download_start) =
          promise (run_stream pre download_start))
  /\ (promise (run_stream evs download_start) = Fulfilled ->
      exists pre mid size post,
        evs = pre ++ WriteFinish :: mid ++ StatSettled (inr size) :: post)
  /\ (Forall (fun ev => ev = ReadEnd) evs ->
      promise (run_stream evs download_start) = Pending)
  /\ (forall pre mid r post,
        evs = pre ++ WriteFinish :: mid ++ StatSettled r :: post ->
        promise (run_stream evs download_start) <> Pending)
  /\ (forall pre error post,
        evs = pre ++ ReadError error :: post
        \/ evs = pre ++ WriteError error :: post ->
        promise (run_stream evs download_start) <> Pending
        /\ (promise (run_stream pre download_start) = Pending ->
            promise (run_stream evs download_start) = Rejected error)).
Proof.
  pose proof (settlements_pending evs download_start eq_refl) as Hcount.
  split; [| split; [| split; [| split; [| split; [| split]]]]].
  - rewrite Hcount. destruct (is_pending _); lia.
  - intros Hsettled. rewrite Hcount.
    destruct (promise (run_stream evs download_start)); [contradiction | reflexivity..].
  - intros pre post -> Hpre. rewrite run_stream_app. now apply settled_stays.
  - intros Hfinal.
    destruct (fulfilled_after_finish evs download_start eq_refl Hfinal)
      as [[Hpos _] | Hsplit]; [cbn in Hpos; lia | exact Hsplit].
  - intros Hends.
    destruct (promise (run_stream evs download_start)) eqn:Hfinal;
      [reflexivity | | ].
    + destruct (fulfilled_after_finish evs download_start eq_refl Hfinal)
        as [[Hpos _] | (pre & mid & size & post & ->)]; [cbn in Hpos; lia |].
      apply Forall_app in Hends as [_ Hends].
      apply Forall_cons_1 in Hends as [Hend _]. discriminate.
    + exfalso. clear Hcount. revert Hfinal.
      induction Hends as [| ev evs' -> _ IH]; cbn; [discriminate | exact IH].
  - intros pre mid r post ->. apply finish_then_stat_settles.
  - intros pre error post Hsplit.
    assert (Hev : exists ev,
               evs = pre ++ ev :: post
               /\ forall d, promise (on_event d ev) = reject error (promise d)).
    { destruct Hsplit as [-> | ->]; eexists; split; try reflexivity;
        intros []; reflexivity. }
    destruct Hev as (ev & -> & Hreject).
    rewrite run_stream_app. cbn [run_stream fold_left]. fold (run_stream post).
    pose proof (Hreject (run_stream pre download_start)) as Hnext.
    destruct (promise (run_stream pre download_start)) as [| | reason];
      cbn [reject] in Hnext;
      (rewrite settled_stays by (rewrite Hnext; discriminate));
      rewrite Hnext; (split; [discriminate | intros Hpre; congruence]).
Qed.

Lemma download_settles_once_witness :
  settlements [ReadError (Error "read"); WriteError (Error "write")]
    download_start = 1%nat
  /\ promise (run_stream [ReadError (Error "read"); WriteError (Error "write")]
                download_start) = Rejected (Error "read").
Proof.
  destruct (download_settles_once
              [ReadError (Error "read"); WriteError (Error "write")])
    as (_ & Hone & _ & _ & _ & _ & Herror).
  split.
  - apply Hone. discriminate.
  - apply (Herror [] (Error "read") [WriteError (Error "write")]).
    + left. reflexivity.
    + reflexivity.
Defined.

(** ** Further properties of the handler *)

Lemma http_error_token r err :
  http_error r = Some err -> token_result r = Throw err.
Proof.
  destruct r as [e | st d]; cbn; [congruence |].
  destruct (is_2xx st); [discriminate | congruence].
Qed.

Lemma http_error_resolve folderName r err :
  http_error r = Some err -> resolve_result folderName r = Throw err.
Proof.
  destruct r as [e | st d]; cbn; [congruence |].
  destruct (is_2xx st); [discriminate | congruence].
Qed.

Lemma http_error_upload r err :
  http_error r = Some err -> upload_result r = Throw err.
Proof.
  destruct r as [e | st d]; cbn; [congruence |].
  destruct (is_2xx st); [discriminate | congruence].
Qed.

(** X1.  The first step that fails ends the invocation: whichever event of
    the trace carries an error (a rejected download, a failed [fs.stat] or
    [fs.readFile], a transport error, a status outside 200..299), it is the
    last event and the handler returns the 500 outcome with that error's
    message. *)
Theorem handler_fails_fast (w : World) (event : LambdaEvent)
    (res : Result Outcome) (tr : Trace) (ev : Event) (err : JsError) :
  invoke w event = (res, tr) ->
  In ev tr ->
  step_error ev = Some err ->
  res = Ok (mkOutcome 500
              (json_message_error "Failed to process shared folder"
                 (json_escape (err_message err))))
  /\ last tr = Some ev.
Proof.
  intros Hrun Hin Herr. apply invoke_run in Hrun.
  destruct Hrun as [Hrec | record rest e Hrec Hkey
                   | record rest fileKey res tr Hrec Hkey Htransfer];
    [destruct Hin | destruct Hin |].
  destruct Htransfer; split_runs; trace_member Hin;
    unfold download_promise, downloaded in *; cbn [step_error] in Herr;
    repeat match goal with
    | H : promise ?s = _, H' : context [promise ?s] |- _ => rewrite H in H'
    end;
    try discriminate;
    repeat match goal with
    | H : token_result ?r = _, H' : http_error ?r = Some _ |- _ =>
        rewrite (http_error_token _ _ H') in H; clear H'
    | H : resolve_result _ ?r = _, H' : http_error ?r = Some _ |- _ =>
        rewrite (http_error_resolve _ _ _ H') in H; clear H'
    | H : upload_result ?r = _, H' : http_error ?r = Some _ |- _ =>
        rewrite (http_error_upload _ _ H') in H; clear H'
    end;
    simplify_eq; try (split; reflexivity).
Qed.

Lemma handler_fails_fast_witness :
  fst (invoke world_offline example_event) =
    Ok (mkOutcome 500
          (json_message_error "Failed to process shared folder"
             "getaddrinfo ENOTFOUND graph.microsoft.com"))
  /\ last (snd (invoke world_offline example_event)) =
       Some (EvHttp (shared_request (VStr "token-2"))
               (NetworkError (Error "getaddrinfo ENOTFOUND graph.microsoft.com"))).
Proof.
  apply (handler_fails_fast world_offline example_event _ _
           (EvHttp (shared_request (VStr "token-2"))
              (NetworkError (Error "getaddrinfo ENOTFOUND graph.microsoft.com")))
           (Error "getaddrinfo ENOTFOUND graph.microsoft.com")).
  - apply surjective_pairing.
  - vm_compute. do 3 right. left. reflexivity.
  - reflexivity.
Defined.

(** X2.  The steps of every invocation are an initial part of the complete
    run: download, size check, token, listing, token, file read, upload.
    No step is repeated or taken out of order, so an invocation sends at
    most one upload and at most two token requests. *)
Theorem handler_steps_in_order (w : World) (event : LambdaEvent) :
  exists n, map step_of (snd (invoke w event)) = firstn n full_run.
Proof.
  destruct (invoke w event) as [res tr] eqn:Hrun. apply invoke_run in Hrun.
  cbn [snd].
  destruct Hrun as [Hrec | record rest e Hrec Hkey
                   | record rest fileKey res tr Hrec Hkey Htransfer];
    [exists 0%nat; reflexivity | exists 0%nat; reflexivity |].
  destruct Htransfer; split_runs; unfold checked; cbn [app map step_of];
    first [ exists 1%nat; reflexivity | exists 2%nat; reflexivity
          | exists 3%nat; reflexivity | exists 4%nat; reflexivity
          | exists 5%nat; reflexivity | exists 6%nat; reflexivity
          | exists 7%nat; reflexivity ].
Qed.

Lemma upload_result_inv r d :
  upload_result r = Ok d ->
  exists st, r = HttpResponse st d /\ (st = 200 \/ st = 201).
Proof.
  destruct r as [e | st d']; cbn; [discriminate |].
  destruct (is_2xx st); [| discriminate].
  destruct (Z.eqb_spec st 201) as [-> | H201]; cbn.
  - intros [= <-]. eauto.
  - destruct (Z.eqb_spec st 200) as [-> | H200]; [| discriminate].
    intros [= <-]. eauto.
Qed.

Lemma transfer_summary (w : World) (bucket key : string)
    (res : Result Outcome) (tr : Trace) :
  TransferRun w bucket key res tr ->
  (exists e, res = Ok (failure_outcome e)
             /\ forall ev, last tr = Some ev -> ~ accepted_upload ev)
  \/ (res = Never /\ tr = [downloaded w bucket key]
      /\ download_promise w bucket key = Pending)
  \/ (res = Ok (success_outcome (folder_name w))
      /\ exists ev, last tr = Some ev /\ accepted_upload ev).
Proof.
  intros Hrun.
  destruct Hrun; split_runs;
    try (right; left; repeat split; assumption);
    try (left; eexists; split; [reflexivity |];
         unfold checked; rewrite ?last_app; cbn [app last];
         intros ev [= <-] (req & st & d & Hev & Hput & Hst & Htruthy);
         simplify_eq; try discriminate Hput;
         match goal with
         | H : upload_result _ = _ |- _ =>
             rewrite (upload_result_ok _ _ Hst) in H; simplify_eq
         end; congruence).
  right. right. split; [reflexivity |].
  match goal with
  | H : upload_result _ = Ok _ |- _ =>
      destruct (upload_result_inv _ _ H) as (st & -> & Hst)
  end.
  eexists. split; [rewrite !last_app; reflexivity |].
  eexists _, st, _. repeat split; try reflexivity; assumption.
Qed.

(** X3.  The handler never rejects.  It returns status 200 exactly when the
    last event of the invocation is a PUT answered 200 or 201 with a truthy
    body, and the outcome then names the configured folder; every other
    outcome it returns has status 500.  When the download promise never
    settles the handler does not return, and has done nothing but start the
    download. *)
Theorem handler_outcome_cases (w : World) (event : LambdaEvent)
    (res : Result Outcome) (tr : Trace) :
  invoke w event = (res, tr) ->
  (forall e, res <> Throw e)
  /\ (forall o, res = Ok o -> statusCode o = 200 \/ statusCode o = 500)
  /\ ((exists o, res = Ok o /\ statusCode o = 200) <->
      (exists req st d,
          last tr = Some (EvHttp req (HttpResponse st d))
          /\ req_method req = PUT /\ (st = 200 \/ st = 201) /\ truthy d = true))
  /\ (forall o, res = Ok o -> statusCode o = 200 ->
        o = success_outcome (env w "ONEDRIVE_SHARED_FOLDER"))
  /\ (forall record rest fileKey,
        Records event = record :: rest ->
        decodeURIComponent (object_key record) = inr fileKey ->
        download_promise w (bucket_name record) fileKey = Pending ->
        res = Never /\ tr = [downloaded w (bucket_name record) fileKey]).
Proof.
  intros Hrun. apply invoke_run in Hrun.
  assert (Hpending : forall record rest fileKey,
             Records event = record :: rest ->
             decodeURIComponent (object_key record) = inr fileKey ->
             download_promise w (bucket_name record) fileKey = Pending ->
             res = Never /\ tr = [downloaded w (bucket_name record) fileKey]).
  { intros record0 rest0 fileKey0 Hrec0 Hkey0 Hp.
    destruct Hrun as [Hrec | record rest e Hrec Hkey
                     | record rest fileKey res tr Hrec Hkey Htransfer];
      [congruence | |];
      rewrite Hrec0 in Hrec; injection Hrec as <- <-;
      rewrite Hkey0 in Hkey; [discriminate Hkey |].
    injection Hkey as <-.
    destruct Htransfer; split_runs; try (split; reflexivity); congruence. }
  assert (Hsum :
    (exists e, res = Ok (failure_outcome e)
               /\ forall ev, last tr = Some ev -> ~ accepted_upload ev)
    \/ (res = Never /\ exists ev, tr = [ev] /\ step_of ev = Download)
    \/ (res = Ok (success_outcome (folder_name w))
        /\ exists ev, last tr = Some ev /\ accepted_upload ev)).
  { destruct Hrun as [Hrec | record rest e Hrec Hkey
                     | record rest fileKey res tr Hrec Hkey Htransfer].
    - left. eexists. split; [reflexivity | discriminate].
    - left. eexists. split; [reflexivity | discriminate].
    - destruct (transfer_summary _ _ _ _ _ Htransfer)
        as [Hfail | [(Hres & Htr & Hp) | Hok]]; auto.
      right. left. split; [assumption |]. eexists. split; [exact Htr | reflexivity]. }
  clear Hrun.
  destruct Hsum as [(e & -> & Hlast) | [(-> & ev & -> & Hev) | (-> & ev & Hlast & Hev)]].
  - split; [discriminate |]. split; [intros o [= <-]; now right |].
    split; [split |].
    + intros (o & [= <-] & Hs). discriminate Hs.
    + intros (req & st & d & Hl & Hrest). exfalso. eapply Hlast; [exact Hl |].
      exists req, st, d. split; [reflexivity | exact Hrest].
    + split; [intros o [= <-] Hs; discriminate Hs | exact Hpending].
  - split; [discriminate |]. split; [discriminate |].
    split; [split |].
    + intros (o & Ho & _). discriminate Ho.
    + intros (req & st & d & [= ->] & Hput & _). cbn in Hev.
      rewrite Hput in Hev. discriminate Hev.
    + split; [discriminate | exact Hpending].
  - split; [discriminate |]. split; [intros o [= <-]; now left |].
    split; [split |].
    + intros _. destruct Hev as (req & st & d & -> & Hrest). eauto 10.
    + intros _. eexists. split; reflexivity.
    + split; [intros o [= <-] _; reflexivity | exact Hpending].
Qed.

Lemma handler_outcome_cases_witness :
  (forall e, fst (invoke world_ok example_event) <> Throw e)
  /\ (exists o, fst (invoke world_ok example_event) = Ok o /\ statusCode o = 200)
  /\ fst (invoke world_stalled example_event) = Never.
Proof.
  destruct (handler_outcome_cases world_ok example_event
              (fst (invoke world_ok example_event))
              (snd (invoke world_ok example_event)))
    as (Hthrow & _ & Hiff & _); [apply surjective_pairing |].
  destruct (handler_outcome_cases world_stalled example_event
              (fst (invoke world_stalled example_event))
              (snd (invoke world_stalled example_event)))
    as (_ & _ & _ & _ & Hpending); [apply surjective_pairing |].
  split; [exact Hthrow |]. split.
  - apply Hiff.
    eexists _, 201, _. split; [vm_compute; reflexivity |].
    split; [reflexivity |]. split; [right; reflexivity | reflexivity].
  - eapply Hpending; reflexivity.
Defined.

(** X4.  Every upload request of an invocation is its last event, comes
    right after the read of the local file, and carries exactly the bytes
    that read returned; the file read is the one the download of the first
    record's decoded key was written to. *)
Theorem upload_sends_downloaded_file (w : World) (event : LambdaEvent)
    (res : Result Outcome) (tr : Trace) (req : HttpRequest) (r : HttpResult) :
  invoke w event = (res, tr) ->
  In (EvHttp req r) tr ->
  req_method req = PUT ->
  exists record rest fileKey middle fileBuffer,
    Records event = record :: rest
    /\ decodeURIComponent (object_key record) = inr fileKey
    /\ tr = downloaded w (bucket_name record) fileKey
            :: middle ++ [EvReadFile (download_path w fileKey) (inr fileBuffer);
                          EvHttp req r]
    /\ req_body req = BufferBody fileBuffer
    /\ req_headers req !! 1%nat = Some ("Content-Type", "application/octet-stream").
Proof.
  intros Hrun Hin Hput. apply invoke_run in Hrun.
  destruct Hrun as [Hrec | record rest e Hrec Hkey
                   | record rest fileKey res tr Hrec Hkey Htransfer];
    [destruct Hin | destruct Hin |].
  exists record, rest, fileKey.
  destruct Htransfer; split_runs; trace_member Hin; try discriminate Hput;
    unfold checked; cbn [app];
    (eexists [_; _; _; _], _; repeat split; try eassumption; reflexivity).
Qed.

Lemma upload_sends_downloaded_file_witness :
  exists record rest fileKey middle fileBuffer,
    Records example_event = record :: rest
    /\ decodeURIComponent (object_key record) = inr fileKey
    /\ snd (invoke world_ok example_event) =
         downloaded world_ok (bucket_name record) fileKey
         :: middle ++ [EvReadFile (download_path world_ok fileKey) (inr fileBuffer);
                       EvHttp (upload_request (VStr "drive-2") (VStr "item-2")
                                 "example.txt" (VStr "token-4")
                                 [Byte.x68; Byte.x69])
                         (HttpResponse 201 (VObj [("id", VStr "new-item")]))]
    /\ req_body (upload_request (VStr "drive-2") (VStr "item-2")
                   "example.txt" (VStr "token-4") [Byte.x68; Byte.x69])
       = BufferBody fileBuffer
    /\ req_headers (upload_request (VStr "drive-2") (VStr "item-2")
                      "example.txt" (VStr "token-4") [Byte.x68; Byte.x69])
         !! 1%nat = Some ("Content-Type", "application/octet-stream").
Proof.
  apply (upload_sends_downloaded_file world_ok example_event
           (fst (invoke world_ok example_event))).
  - apply surjective_pairing.
  - vm_compute. do 6 right. left. reflexivity.
  - reflexivity.
Defined.

Lemma array_find_first (pred : Value -> JsError + bool) (l : list Value) (v : Value) :
  array_find pred l = inr v -> truthy v = true ->
  exists before after,
    l = before ++ v :: after
    /\ Forall (fun x => pred x = inr false) before
    /\ pred v = inr true.
Proof.
  induction l as [| x l IH]; cbn [array_find].
  - intros [= <-] Hv. discriminate Hv.
  - destruct (pred x) as [e | []] eqn:Hx; [discriminate | |].
    + intros [= <-] _. exists [], l. repeat split; [constructor | exact Hx].
    + intros Hfind Hv. destruct (IH Hfind Hv) as (before & after & -> & Hb & Hp).
      exists (x :: before), after. repeat split; [constructor; assumption | exact Hp].
Qed.

Lemma pick_folder_inv (folderName d : Value) (ref : FolderRef) :
  pick_folder folderName d = inr ref ->
  exists items before entry after remoteItem parentReference,
    get_prop d "value" = inr (VArr items)
    /\ items = before ++ entry :: after
    /\ Forall (fun x => folder_matches folderName x = inr false) before
    /\ folder_matches folderName entry = inr true
    /\ get_prop entry "remoteItem" = inr remoteItem
    /\ get_prop remoteItem "parentReference" = inr parentReference
    /\ get_prop parentReference "driveId" = inr (driveId ref)
    /\ get_prop remoteItem "id" = inr (itemId ref).
Proof.
  unfold pick_folder, mbind, throws_bind.
  destruct (get_prop d "value") as [e | items] eqn:Hvalue; [discriminate |].
  destruct (call_find items (folder_matches folderName)) as [e | entry] eqn:Hfind;
    [discriminate |].
  destruct (truthy entry) eqn:Htruthy; cbn [negb]; [| discriminate].
  destruct (get_prop entry "remoteItem") as [e | remoteItem] eqn:Hremote;
    [discriminate |].
  destruct (get_prop remoteItem "parentReference") as [e | parentReference] eqn:Hparent;
    [discriminate |].
  destruct (get_prop parentReference "driveId") as [e | drive] eqn:Hdrive;
    [discriminate |].
  destruct (get_prop remoteItem "id") as [e | item] eqn:Hitem; [discriminate |].
  intros [= <-]. cbn [driveId itemId].
  destruct items as [| | | | | l |]; try discriminate Hfind.
  cbn [call_find] in Hfind.
  destruct (array_find_first _ _ _ Hfind Htruthy) as (before & after & -> & Hb & Hp).
  exists (before ++ entry :: after), before, entry, after, remoteItem, parentReference.
  repeat split; assumption.
Qed.

Lemma resolve_result_inv (folderName : Value) (r : HttpResult) (ref : FolderRef) :
  resolve_result folderName r = Ok ref ->
  exists st d, r = HttpResponse st d /\ is_2xx st = true
               /\ pick_folder folderName d = inr ref.
Proof.
  destruct r as [e | st d]; cbn [resolve_result]; [discriminate |].
  destruct (is_2xx st) eqn:Hst; [| discriminate].
  destruct (pick_folder folderName d) as [e | ref'] eqn:Hpick; cbn [unlift];
    [discriminate |].
  intros [= <-]. exists st, d. repeat split; assumption.
Qed.

(** X5.  Resolution and upload compose.  Whatever JSON the listing request
    is answered with, an upload request of the invocation is made for the
    first element of the [value] array that passes the test of
    [resolveSharedFolder] (every element before it fails the test without
    throwing), with the identifiers read from its [remoteItem].  When these
    are strings, the url that the code hands to [axios.put] is
    [.../drives/{driveId}/items/{itemId}:/{fileKey}:/content] with the
    decoded key inserted as it is: the code escapes nothing.  What address
    axios makes of that string is not part of the statement. *)
Theorem upload_targets_first_match (w : World) (event : LambdaEvent)
    (res : Result Outcome) (tr : Trace) (listing upload : HttpRequest)
    (st : Z) (d : Value) (r : HttpResult) :
  invoke w event = (res, tr) ->
  In (EvHttp listing (HttpResponse st d)) tr ->
  req_method listing = GET ->
  In (EvHttp upload r) tr ->
  req_method upload = PUT ->
  exists record rest fileKey items before entry after
         remoteItem parentReference driveId itemId,
    Records event = record :: rest
    /\ decodeURIComponent (object_key record) = inr fileKey
    /\ get_prop d "value" = inr (VArr items)
    /\ items = before ++ entry :: after
    /\ Forall (fun x => folder_matches (env w "ONEDRIVE_SHARED_FOLDER") x = inr false)
         before
    /\ folder_matches (env w "ONEDRIVE_SHARED_FOLDER") entry = inr true
    /\ get_prop entry "remoteItem" = inr remoteItem
    /\ get_prop remoteItem "parentReference" = inr parentReference
    /\ get_prop parentReference "driveId" = inr driveId
    /\ get_prop remoteItem "id" = inr itemId
    /\ forall drive item,
         driveId = VStr drive -> itemId = VStr item ->
         req_url upload =
           "https://graph.microsoft.com/v1.0/drives/" +:+ drive
             +:+ "/items/" +:+ item +:+ ":/" +:+ fileKey +:+ ":/content".
Proof.
  intros Hrun Hlist Hget Hup Hput. apply invoke_run in Hrun.
  destruct Hrun as [Hrec | record rest e Hrec Hkey
                   | record rest fileKey res tr Hrec Hkey Htransfer];
    [destruct Hup | destruct Hup |].
  exists record, rest, fileKey.
  destruct Htransfer; split_runs;
    trace_member Hup; try discriminate Hput;
    trace_member Hlist; try discriminate Hget;
    match goal with
    | H : resolve_result _ _ = Ok ?ref |- _ =>
        destruct (resolve_result_inv _ _ _ H) as (st' & d' & Heq & _ & Hpick);
        injection Heq as <- <-;
        destruct (pick_folder_inv _ _ _ Hpick)
          as (items & before & entry & after & remoteItem & parentReference
              & Hvalue & Hitems & Hbefore & Hentry & Hremote & Hparent
              & Hdrive & Hitem);
        exists items, before, entry, after, remoteItem, parentReference,
               (driveId ref), (itemId ref)
    end;
    (repeat split; try assumption;
     intros drive item Hd Hi; cbn [req_url upload_request]; unfold upload_url;
     rewrite Hd, Hi; reflexivity).
Qed.

Lemma upload_targets_first_match_witness :
  exists record rest fileKey items before entry after
         remoteItem parentReference driveId itemId,
    Records hash_event = record :: rest
    /\ decodeURIComponent (object_key record) = inr fileKey
    /\ get_prop (listing_body example_listing) "value" = inr (VArr items)
    /\ items = before ++ entry :: after
    /\ Forall (fun x => folder_matches (env world_ok "ONEDRIVE_SHARED_FOLDER") x
                        = inr false) before
    /\ folder_matches (env world_ok "ONEDRIVE_SHARED_FOLDER") entry = inr true
    /\ get_prop entry "remoteItem" = inr remoteItem
    /\ get_prop remoteItem "parentReference" = inr parentReference
    /\ get_prop parentReference "driveId" = inr driveId
    /\ get_prop remoteItem "id" = inr itemId
    /\ forall drive item,
         driveId = VStr drive -> itemId = VStr item ->
         req_url (upload_request (VStr "drive-2") (VStr "item-2") "report#1.txt"
                    (VStr "token-4") [Byte.x68; Byte.x69]) =
           "https://graph.microsoft.com/v1.0/drives/" +:+ drive
             +:+ "/items/" +:+ item +:+ ":/" +:+ fileKey +:+ ":/content".
Proof.
  apply (upload_targets_first_match world_ok hash_event
           (fst (invoke world_ok hash_event))
           (snd (invoke world_ok hash_event))
           (shared_request (VStr "token-2")) _ 200 _
           (HttpResponse 201 (VObj [("id", VStr "new-item")]))).
  - apply surjective_pairing.
  - vm_compute. do 3 right. left. reflexivity.
  - reflexivity.
  - vm_compute. do 6 right. left. reflexivity.
  - reflexivity.
Defined.

(** The url of the upload for the key [report%231.txt]: the [#] of the
    decoded key is in the string as it is. *)
Example unescaped_key_in_url :
  map (fun e => match e with
                | EvHttp req _ =>
                    match req_method req with
                    | PUT => Some (req_url req)
                    | _ => None
                    end
                | _ => None
                end)
      (snd (invoke world_ok hash_event))
  = [None; None; None; None; None; None;
     Some "https://graph.microsoft.com/v1.0/drives/drive-2/items/item-2:/report#1.txt:/content"].
Proof. vm_compute. reflexivity. Qed.





(** With the folder name unset and a nameless folder in the listing, the
    file is uploaded into that folder and the handler reports success. *)
Example nameless_folder_upload :
  fst (invoke world_nameless_folder example_event) =
    Ok (success_outcome VUndefined)
  /\ (exists req r,
        last (snd (invoke world_nameless_folder example_event)) = Some (EvHttp req r)
        /\ req_url req = upload_url (VStr "drive-9") (VStr "item-9") "example.txt").
Proof.
  split; [vm_compute; reflexivity |].
  eexists _, _. split; [vm_compute; reflexivity | reflexivity].
Qed.

(** X7.  An invocation does nothing at all, no download and no request,
    exactly when the event has no record or the key of its first record does
    not percent-decode; it then returns status 500.  In every other case the
    first thing it does is the download. *)
Theorem handler_does_nothing_iff (w : World) (event : LambdaEvent) :
  (snd (invoke w event) = [] <->
   Records event = []
   \/ exists record rest e,
        Records event = record :: rest
        /\ decodeURIComponent (object_key record) = inl e)
  /\ (snd (invoke w event) = [] ->
      exists o, fst (invoke w event) = Ok o /\ statusCode o = 500)
  /\ (snd (invoke w event) <> [] ->
      exists record rest fileKey,
        Records event = record :: rest
        /\ decodeURIComponent (object_key record) = inr fileKey
        /\ hd_error (snd (invoke w event))
           = Some (downloaded w (bucket_name record) fileKey)).
Proof.
  destruct (invoke w event) as [res tr] eqn:Hrun. apply invoke_run in Hrun.
  cbn [fst snd].
  destruct Hrun as [Hrec | record rest e Hrec Hkey
                   | record rest fileKey res tr Hrec Hkey Htransfer].
  - split; [split; auto |]. split; [eauto | contradiction].
  - split; [split; eauto 10 |]. split; [eauto | contradiction].
  - assert (Hhd : hd_error tr = Some (downloaded w (bucket_name record) fileKey)).
    { destruct Htransfer; split_runs; reflexivity. }
    assert (Htr : tr <> []) by (intros ->; discriminate Hhd).
    split; [split |].
    + intros ->. contradiction.
    + intros [Hnil | (record' & rest' & e & Hrec' & Hkey')].
      * rewrite Hnil in Hrec. discriminate.
      * rewrite Hrec in Hrec'. simplify_eq. congruence.
    + split; [intros ->; contradiction | eauto 10].
Qed.

Lemma first_event_of_invocation (w : World) (event : LambdaEvent)
    (record : S3Record) (rest : list S3Record) :
  Records event = record :: rest ->
  match decodeURIComponent (object_key record) with
  | inr fileKey =>
      hd_error (snd (invoke w event)) = Some (downloaded w (bucket_name record) fileKey)
  | inl e => invoke w event = (Ok (failure_outcome e), [])
  end.
Proof.
  intros Hrec.
  destruct (invoke w event) as [res tr] eqn:Hrun. apply invoke_run in Hrun.
  destruct Hrun as [Hrec' | record' rest' e Hrec' Hkey
                   | record' rest' fileKey res tr Hrec' Hkey Htransfer];
    rewrite Hrec in Hrec'; simplify_eq; rewrite Hkey; [reflexivity |].
  destruct Htransfer; split_runs; reflexivity.
Qed.

Lemma decode_percent_free (s : string) :
  percent_free s = true -> decode_from [] 0 s = Some s.
Proof.
  induction s as [| c s IH]; [reflexivity |].
  unfold percent_free. cbn [list_ascii_of_string forallb decode_from].
  intros H. apply andb_true_iff in H as [Hc Hs].
  apply negb_true_iff in Hc. rewrite Hc.
  fold (percent_free s) in Hs. rewrite (IH Hs). reflexivity.
Qed.

(** X8.  A key without a percent sign is used as it is: [decodeURIComponent]
    returns it unchanged (a plus sign stays a plus sign), and the handler
    reads exactly that key from the bucket of the first record. *)
Theorem plain_key_used_verbatim (w : World) (event : LambdaEvent)
    (record : S3Record) (rest : list S3Record) :
  Records event = record :: rest ->
  percent_free (object_key record) = true ->
  decodeURIComponent (object_key record) = inr (object_key record)
  /\ hd_error (snd (invoke w event)) =
       Some (downloaded w (bucket_name record) (object_key record)).
Proof.
  intros Hrec Hfree.
  assert (Hkey : decodeURIComponent (object_key record) = inr (object_key record)).
  { unfold decodeURIComponent. now rewrite decode_percent_free. }
  split; [exact Hkey |].
  pose proof (first_event_of_invocation w event record rest Hrec) as H.
  rewrite Hkey in H. exact H.
Qed.

Lemma plain_key_used_verbatim_witness :
  decodeURIComponent "year+2024/report v1.txt" = inr "year+2024/report v1.txt"
  /\ hd_error (snd (invoke world_ok plus_event)) =
       Some (downloaded world_ok "my-s3-bucket" "year+2024/report v1.txt").
Proof.
  apply (plain_key_used_verbatim world_ok plus_event
           (mkRecord "my-s3-bucket" "year+2024/report v1.txt") []);
    reflexivity.
Defined.

Lemma decode_bad_escape (pre rest : string) :
  percent_free pre = true -> bad_escape rest = true ->
  decode_from [] 0 (pre +:+ String "%" rest) = None.
Proof.
  intros Hpre Hbad. induction pre as [| c pre IH].
  - change (decode_from [] 0 (String "%" rest) = None).
    destruct rest as [| h1 [| h2 rest]]; try reflexivity.
    cbn [bad_escape] in Hbad.
    cbn [decode_from Ascii.eqb Bool.eqb].
    destruct (hex_value h1); [| reflexivity].
    destruct (hex_value h2); [discriminate | reflexivity].
  - unfold percent_free in Hpre. cbn [list_ascii_of_string forallb] in Hpre.
    apply andb_true_iff in Hpre as [Hc Hpre]. apply negb_true_iff in Hc.
    fold (percent_free pre) in Hpre.
    change (decode_from [] 0 (String c (pre +:+ String "%" rest)) = None).
    cbn [decode_from]. rewrite Hc, (IH Hpre). reflexivity.
Qed.

(** X9.  A key whose first percent sign is not followed by two hexadecimal
    digits cannot be decoded: the handler returns the 500 outcome with the
    error ["URI malformed"] and downloads and requests nothing. *)
Theorem malformed_key_rejected (w : World) (event : LambdaEvent)
    (record : S3Record) (rest : list S3Record) (before after : string) :
  Records event = record :: rest ->
  object_key record = before +:+ String "%" after ->
  percent_free before = true -> bad_escape after = true ->
  invoke w event =
    (Ok (mkOutcome 500
           (json_message_error "Failed to process shared folder" "URI malformed")),
     []).
Proof.
  intros Hrec Hsplit Hbefore Hafter.
  pose proof (first_event_of_invocation w event record rest Hrec) as H.
  unfold decodeURIComponent in H.
  rewrite Hsplit, (decode_bad_escape _ _ Hbefore Hafter) in H. exact H.
Qed.

Lemma malformed_key_rejected_witness :
  invoke world_ok truncated_event =
    (Ok (mkOutcome 500
           (json_message_error "Failed to process shared folder" "URI malformed")),
     []).
Proof.
  apply (malformed_key_rejected world_ok truncated_event
           (mkRecord "my-s3-bucket" "100%") [] "100" ""); reflexivity.
Defined.

(** ** The local path *)

Lemma substring_list (n m : nat) (s : string) :
  list_ascii_of_string (substring n m s) =
    firstn m (skipn n (list_ascii_of_string s)).
Proof.
  revert n m. induction s as [| c s IH]; intros n m.
  - destruct n, m; reflexivity.
  - destruct n as [| n].
    + destruct m as [| m]; [reflexivity |]. cbn. now rewrite IH.
    + cbn. apply IH.
Qed.

Lemma append_list (a b : string) :
  list_ascii_of_string (a +:+ b) = list_ascii_of_string a ++ list_ascii_of_string b.
Proof. induction a as [| c a IH]; [reflexivity |]. simpl. now rewrite IH. Qed.

Lemma no_slash_append (a b : string) :
  no_slash (a +:+ b) = no_slash a && no_slash b.
Proof. unfold no_slash. now rewrite append_list, forallb_app. Qed.

Lemma length_list (s : string) :
  length (list_ascii_of_string s) = String.length s.
Proof. induction s as [| c s IH]; [reflexivity |]. cbn. now rewrite IH. Qed.

Lemma scanned_result (l pre : list ascii) (st : ExtScan) :
  scanned l pre st -> scan_result l st.
Proof.
  intros [_ [(He & Hd & _) | (mid & tail & Hl & Hmid & He & _ & Hd)]].
  - now left.
  - destruct Hd as [Hd | Hd]; [now left |].
    right. right. exists pre, mid, tail. auto.
Qed.

Lemma extname_scan_result (l : list ascii) :
  forall pre st,
    scanned l pre st ->
    scan_result l (extname_scan (rev pre) (Z.of_nat (length pre) - 1) st).
Proof.
  induction pre as [| c pre IH] using rev_ind; intros st Hst.
  { cbn. eapply scanned_result; eauto. }
  rewrite rev_app_distr, length_app. cbn [rev app length extname_scan].
  replace (Z.of_nat (length pre + 1) - 1) with (Z.of_nat (length pre)) by lia.
  replace (Z.of_nat (length pre) - 1 + 1) with (Z.of_nat (length pre)) by lia.
  destruct Hst as [[suf Hsuf] Hst].
  assert (Hpre : exists suf', l = pre ++ suf').
  { exists (c :: suf). rewrite Hsuf, <- app_assoc. reflexivity. }
  destruct (Ascii.eqb c "/") eqn:Hc.
  - destruct Hst as [(He & Hd & Hm) | (mid & tail & Hl & Hmid & He & Hm & Hd)].
    + rewrite Hm. cbn [negb]. apply IH. split; [exact Hpre |]. left. auto.
    + rewrite Hm. cbn [negb].
      destruct Hd as [Hd | Hd]; [left; exact Hd |].
      right. right. exists (pre ++ [c]), mid, tail.
      cbn [startDot scanEnd]. rewrite length_app in *. cbn [length] in *.
      repeat split; try assumption; lia.
  - assert (Hmid' : forall mid,
               forallb (fun c => negb (Ascii.eqb c "/")) mid = true ->
               forallb (fun c => negb (Ascii.eqb c "/")) (c :: mid) = true).
    { intros mid Hmid. cbn. now rewrite Hc, Hmid. }
    destruct Hst as [(He & Hd & Hm) | (mid & tail & Hl & Hmid & He & Hm & Hd)].
    + rewrite He. cbn [Z.eqb Pos.eqb startDot startPart scanEnd matchedSlash
                       preDotState].
      rewrite Hd. cbn [Z.eqb Pos.eqb negb].
      destruct (Ascii.eqb c ".");
        (apply IH; split; [exact Hpre |]; right; exists [c], suf;
         cbn [startDot scanEnd matchedSlash length];
         repeat split;
         [ rewrite Hsuf, <- app_assoc; reflexivity
         | now apply (Hmid' [])
         | lia
         | first [ left; reflexivity | right; lia ] ]).
    + assert (Hend : (scanEnd st =? -1) = false) by (apply Z.eqb_neq; lia).
      rewrite Hend.
      rewrite length_app in He, Hd. cbn [length] in He, Hd.
      assert (Hl' : l = pre ++ (c :: mid) ++ tail).
      { rewrite Hl, <- app_assoc. reflexivity. }
      destruct (Ascii.eqb c ".");
        destruct (startDot st =? -1) eqn:Hsd; cbn [negb];
        try destruct (preDotState st =? 1); cbn [negb];
        (apply IH; split; [exact Hpre |]; right; exists (c :: mid), tail;
         cbn [startDot scanEnd matchedSlash length];
         split; [exact Hl' |]; split; [now apply Hmid' |];
         split; [lia |]; split; [assumption |];
         destruct Hd as [Hd | Hd];
         [first [left; exact Hd | right; lia] | right; lia]).
Qed.

Lemma forallb_firstn {A} (f : A -> bool) (n : nat) (l : list A) :
  forallb f l = true -> forallb f (firstn n l) = true.
Proof.
  revert n. induction l as [| x l IH]; intros [| n]; cbn; try reflexivity.
  intros H. apply andb_true_iff in H as [Hx Hl]. now rewrite Hx, IH.
Qed.

Lemma forallb_skipn {A} (f : A -> bool) (n : nat) (l : list A) :
  forallb f l = true -> forallb f (skipn n l) = true.
Proof.
  revert n. induction l as [| x l IH]; intros [| n]; cbn; try reflexivity.
  - easy.
  - intros H. apply andb_true_iff in H as [_ Hl]. now apply IH.
Qed.

Lemma forallb_window {A} (f : A -> bool) (a mid tail : list A) (n m : nat) :
  forallb f mid = true ->
  (length a <= n)%nat -> (n + m <= length a + length mid)%nat ->
  forallb f (firstn m (skipn n (a ++ mid ++ tail))) = true.
Proof.
  intros Hmid Hn Hm.
  rewrite drop_app_ge by exact Hn.
  rewrite drop_app_le by lia.
  rewrite take_app_le by (rewrite length_drop; lia).
  now apply forallb_firstn, forallb_skipn.
Qed.

Lemma extname_no_slash (p : string) : no_slash (extname p) = true.
Proof.
  unfold extname.
  pose proof (extname_scan_result (list_ascii_of_string p) (list_ascii_of_string p)
                (mkExtScan (-1) 0 (-1) true 0)) as H.
  rewrite length_list in H.
  set (st := extname_scan _ _ _) in *.
  destruct ((startDot st =? -1) || (scanEnd st =? -1) || (preDotState st =? 0)
            || ((preDotState st =? 1) && (startDot st =? scanEnd st - 1)
                && (startDot st =? startPart st + 1))) eqn:Hcond;
    [reflexivity |].
  repeat (apply orb_false_iff in Hcond as [Hcond ?]).
  apply Z.eqb_neq in Hcond.
  match goal with Hx : (scanEnd st =? -1) = false |- _ => apply Z.eqb_neq in Hx end.
  destruct H as [H | [H | (a & mid & tail & Hl & Hmid & He & Hd)]];
    try contradiction.
  { split; [exists []; now rewrite app_nil_r | left; auto]. }
  unfold no_slash, slice. rewrite substring_list, Hl.
  apply forallb_window; [exact Hmid | lia | lia].
Qed.

Lemma pretty_go_no_slash (x : N) (s : string) :
  no_slash s = true -> no_slash (pretty_N_go x s) = true.
Proof.
  revert s. induction (N.lt_wf_0 x) as [x _ IH]; intros s Hs.
  destruct (N.eq_dec x 0%N) as [-> | Hx].
  - now rewrite pretty_N_go_0.
  - rewrite pretty_N_go_step by lia. apply IH.
    + apply N.div_lt; lia.
    + unfold no_slash in *. cbn [list_ascii_of_string forallb].
      rewrite Hs, andb_true_r. unfold pretty_N_char.
      repeat case_match; reflexivity.
Qed.

Lemma pretty_no_slash (x : N) : no_slash (pretty x) = true.
Proof.
  unfold pretty, pretty_N. destruct (decide (x = 0%N)); [reflexivity |].
  now apply pretty_go_no_slash.
Qed.

(** X10.  Whatever the key, the local file of an invocation lies directly
    in [/tmp]: every path that the download, [fs.stat] and [fs.readFile] are
    given is ["/tmp/" + name] for a [name] without a slash, namely
    [download-<clock><extension of the decoded key>]. *)
Theorem local_path_inside_tmp (w : World) (event : LambdaEvent)
    (res : Result Outcome) (tr : Trace) (ev : Event) (path : string) :
  invoke w event = (res, tr) ->
  In ev tr ->
  event_path ev = Some path ->
  exists record rest fileKey name,
    Records event = record :: rest
    /\ decodeURIComponent (object_key record) = inr fileKey
    /\ name = "download-" +:+ pretty (Date_now w) +:+ extname fileKey
    /\ path = "/tmp/" +:+ name
    /\ no_slash name = true.
Proof.
  intros Hrun Hin Hpath. apply invoke_run in Hrun.
  destruct Hrun as [Hrec | record rest e Hrec Hkey
                   | record rest fileKey res tr Hrec Hkey Htransfer];
    [destruct Hin | destruct Hin |].
  exists record, rest, fileKey, ("download-" +:+ pretty (Date_now w) +:+ extname fileKey).
  assert (Hname : no_slash ("download-" +:+ pretty (Date_now w) +:+ extname fileKey)
                  = true).
  { rewrite !no_slash_append, pretty_no_slash, extname_no_slash. reflexivity. }
  destruct Htransfer; split_runs; trace_member Hin;
    unfold downloaded in Hpath; cbn [event_path] in Hpath; simplify_eq;
    repeat split; first [assumption | reflexivity].
Qed.

Lemma local_path_inside_tmp_witness :
  exists record rest fileKey name,
    Records traversal_event = record :: rest
    /\ decodeURIComponent (object_key record) = inr fileKey
    /\ name = "download-" +:+ pretty (Date_now world_ok) +:+ extname fileKey
    /\ "/tmp/download-1700000000000.sh" = "/tmp/" +:+ name
    /\ no_slash name = true.
Proof.
  apply (local_path_inside_tmp world_ok traversal_event
           (fst (invoke world_ok traversal_event))
           (snd (invoke world_ok traversal_event))
           (EvStat "/tmp/download-1700000000000.sh" (inr 11%N))).
  - apply surjective_pairing.
  - vm_compute. right. left. reflexivity.
  - reflexivity.
Defined.

Lemma append_cancel_r (a b e : string) : a +:+ e = b +:+ e -> a = b.
Proof.
  intros H. apply (f_equal list_ascii_of_string) in H.
  rewrite !append_list in H. apply app_inv_tail in H.
  rewrite <- (string_of_list_ascii_of_string a), <- (string_of_list_ascii_of_string b).
  now rewrite H.
Qed.

(** X11.  The local path depends on the clock and on the extension of the
    key only: for keys with the same extension, two invocations use the
    same local file exactly when [Date.now()] gave them the same value. *)
Theorem local_path_by_clock (w1 w2 : World) (key1 key2 : string) :
  extname key1 = extname key2 ->
  (download_path w1 key1 = download_path w2 key2 <-> Date_now w1 = Date_now w2).
Proof.
  intros Hext. unfold download_path, path_join_tmp. rewrite Hext. split.
  - intros H. simpl in H. injection H as H.
    change (pretty (Date_now w1) +:+ extname key2
            = pretty (Date_now w2) +:+ extname key2) in H.
    apply append_cancel_r in H. now apply (inj pretty) in H.
  - now intros ->.
Qed.

Lemma local_path_by_clock_witness :
  download_path world_ok "a/first.txt" = download_path world_empty_file "b/second.txt"
  <-> Date_now world_ok = Date_now world_empty_file.
Proof. apply (local_path_by_clock world_ok world_empty_file). reflexivity. Defined.


(** ** Further properties of the three OneDrive functions *)

Lemma get_prop_error (v : Value) (p : string) (e : JsError) :
  get_prop v p = inl e -> err_name e = "TypeError".
Proof. destruct v; cbn; intros [= <-]; reflexivity. Qed.

Lemma call_find_not_array (v : Value) (pred : Value -> JsError + bool) :
  (forall l, v <> VArr l) -> exists msg, call_find v pred = inl (TypeError msg).
Proof.
  intros Hv. destruct v; cbn; eauto. now destruct (Hv items).
Qed.

(** X12.  A listing answer whose body has no array under [value] (an empty
    object, a string, [null], ...) makes [resolveSharedFolder] throw a
    [TypeError]; it is not reported as a folder that was not found. *)
Theorem listing_without_array (w : World) (folderName : Value) (h : Trace)
    (res : Result FolderRef) (tr : Trace) (req : HttpRequest) (st : Z) (d : Value) :
  resolveSharedFolder w folderName h = (res, tr) ->
  last tr = Some (EvHttp req (HttpResponse st d)) ->
  req_method req = GET -> is_2xx st = true ->
  (forall l, get_prop d "value" <> inr (VArr l)) ->
  exists e, res = Throw e /\ err_name e = "TypeError".
Proof.
  intros Hrun Hlast Hget Hst Hvalue. apply resolveSharedFolder_run in Hrun.
  inversion Hrun; subst; clear Hrun;
    (rewrite last_app in Hlast; cbn in Hlast; simplify_eq); try discriminate.
  cbn [resolve_result]. rewrite Hst. unfold pick_folder.
  destruct (get_prop d "value") as [e | v] eqn:Hd; cbn [mbind throws_bind unlift].
  - exists e. split; [reflexivity |]. eapply get_prop_error; eauto.
  - destruct (call_find_not_array v (folder_matches folderName)) as [msg Hfind].
    { intros l ->. now apply (Hvalue l). }
    rewrite Hfind. cbn. eauto.
Qed.

Lemma listing_without_array_witness :
  exists e,
    fst (resolveSharedFolder world_empty_listing (VStr "Reports") []) = Throw e
    /\ err_name e = "TypeError".
Proof.
  apply (listing_without_array world_empty_listing (VStr "Reports") [] _
           (snd (resolveSharedFolder world_empty_listing (VStr "Reports") []))
           (shared_request (VStr "token-0")) 200 (VObj [])).
  - apply surjective_pairing.
  - vm_compute. reflexivity.
  - reflexivity.
  - reflexivity.
  - intros l. discriminate.
Defined.




(** X14.  [uploadFileToSharedFolder] returns a value only for a PUT answered
    200 or 201, and then it is the body of that answer; any other status
    from 200 to 299 makes it throw its own error. *)
Theorem upload_returns_on_200_201 (w : World) (driveId folderItemId : Value)
    (filePath fileName : string) (h : Trace) (res : Result Value) (tr : Trace) :
  uploadFileToSharedFolder w driveId folderItemId filePath fileName h = (res, tr) ->
  (forall d, res = Ok d ->
     exists accessToken fileBuffer st,
       last tr = Some (EvHttp (upload_request driveId folderItemId fileName
                                 accessToken fileBuffer)
                         (HttpResponse st d))
       /\ (st = 200 \/ st = 201))
  /\ (forall req st d,
        last tr = Some (EvHttp req (HttpResponse st d)) ->
        req_method req = PUT -> is_2xx st = true -> st <> 200 -> st <> 201 ->
        res = Throw (Error "Failed to upload file to shared folder.")).
Proof.
  intros Hrun. apply uploadFileToSharedFolder_run in Hrun. split.
  - intros d ->. inversion Hrun as [| | r1 tok buf r2 Hr1 Htok Hread Hr2 Hres Htr].
    destruct (upload_result_inv _ _ Hres) as (st & -> & Hst).
    exists tok, buf, st. rewrite last_app. cbn. auto.
  - intros req st d Hlast Hput Hst H200 H201.
    inversion Hrun; subst; clear Hrun;
      (rewrite last_app in Hlast; cbn in Hlast; simplify_eq); try discriminate.
    cbn [upload_result]. rewrite Hst.
    destruct (Z.eqb_spec st 201); [contradiction |].
    destruct (Z.eqb_spec st 200); [contradiction | reflexivity].
Qed.

Lemma upload_returns_on_200_201_witness :
  fst (uploadFileToSharedFolder world_no_content (VStr "drive-2") (VStr "item-2")
         "/tmp/download-1700000000000.txt" "example.txt" [])
  = Throw (Error "Failed to upload file to shared folder.").
Proof.
  destruct (upload_returns_on_200_201 world_no_content (VStr "drive-2") (VStr "item-2")
              "/tmp/download-1700000000000.txt" "example.txt" []
              (fst (uploadFileToSharedFolder world_no_content (VStr "drive-2")
                      (VStr "item-2") "/tmp/download-1700000000000.txt"
                      "example.txt" []))
              (snd (uploadFileToSharedFolder world_no_content (VStr "drive-2")
                      (VStr "item-2") "/tmp/download-1700000000000.txt"
                      "example.txt" [])))
    as [_ Hother].
  - apply surjective_pairing.
  - eapply (Hother _ 204 (VStr "")).
    + vm_compute. reflexivity.
    + reflexivity.
    + reflexivity.
    + discriminate.
    + discriminate.
Defined.

(** X15.  A token answer with status 200 whose body is an object without
    [access_token] does not stop [resolveSharedFolder]: the listing request
    is sent all the same, with the header [Authorization: Bearer undefined]. *)
Theorem missing_token_sent_as_undefined (w : World) (folderName : Value) (h : Trace)
    (res : Result FolderRef) (tr : Trace) (fields : list (string * Value)) :
  resolveSharedFolder w folderName h = (res, tr) ->
  http_send w h (token_request w) = HttpResponse 200 (VObj fields) ->
  assoc_lookup fields "access_token" = VUndefined ->
  exists req r,
    tr = h ++ [EvHttp (token_request w) (HttpResponse 200 (VObj fields));
               EvHttp req r]
    /\ req_method req = GET
    /\ req_url req = "https://graph.microsoft.com/v1.0/me/drive/sharedWithMe"
    /\ req_headers req = [("Authorization", "Bearer undefined")].
Proof.
  intros Hrun Htoken Hfield. apply resolveSharedFolder_run in Hrun.
  assert (Hres : token_result (HttpResponse 200 (VObj fields)) = Ok VUndefined).
  { cbn. now rewrite Hfield. }
  inversion Hrun as [r1 e Hr1 Htok | r1 tok r2 Hr1 Htok Hr2];
    unfold answers in Hr1; rewrite Htoken in Hr1; subst r1;
    rewrite Hres in Htok; simplify_eq.
  eexists _, _. repeat split; reflexivity.
Qed.

Lemma missing_token_sent_as_undefined_witness :
  exists req r,
    snd (resolveSharedFolder world_tokenless (VStr "Reports") []) =
      [] ++ [EvHttp (token_request world_tokenless) (HttpResponse 200 (VObj []));
             EvHttp req r]
    /\ req_method req = GET
    /\ req_url req = "https://graph.microsoft.com/v1.0/me/drive/sharedWithMe"
    /\ req_headers req = [("Authorization", "Bearer undefined")].
Proof.
  apply (missing_token_sent_as_undefined world_tokenless (VStr "Reports") []
           (fst (resolveSharedFolder world_tokenless (VStr "Reports") []))).
  - apply surjective_pairing.
  - reflexivity.
  - reflexivity.
Defined.

Lemma run_read_ends (pre : list StreamEvent) (d : DownloadState) :
  Forall (fun ev => ev = ReadEnd) pre -> run_stream pre d = d.
Proof.
  intros Hpre. revert d. induction Hpre as [| ev pre -> _ IH]; intros d;
    [reflexivity | apply IH].
Qed.

(** X16.  After a transfer in which the read stream only ended and the write
    stream finished, [downloadFileFromS3] is settled by the [fs.stat] of the
    written file: it resolves when that succeeds and rejects with its error
    otherwise, whatever the streams emit later. *)
Theorem download_settled_by_stat (w : World) (bucketName fileKey downloadPath : string)
    (h : Trace) (pre post : list StreamEvent) (r : JsError + N) :
  s3_transfer w h bucketName fileKey downloadPath
    = pre ++ WriteFinish :: StatSettled r :: post ->
  Forall (fun ev => ev = ReadEnd) pre ->
  fst (downloadFileFromS3 w bucketName fileKey downloadPath h) =
    match r with
    | inr _ => Ok tt
    | inl err => Throw err
    end.
Proof.
  intros Hstream Hpre. rewrite downloadFileFromS3_settled, Hstream.
  rewrite run_stream_app, (run_read_ends _ _ Hpre).
  cbn [run_stream fold_left on_event download_start promise awaiting_stat].
  fold (run_stream post). rewrite settled_stays; destruct r; cbn; try reflexivity;
    discriminate.
Qed.

Lemma download_settled_by_stat_witness :
  fst (downloadFileFromS3 world_ok "my-s3-bucket" "example.txt"
         "/tmp/download-1700000000000.txt" []) = Ok tt.
Proof.
  apply (download_settled_by_stat world_ok "my-s3-bucket" "example.txt"
           "/tmp/download-1700000000000.txt" [] [ReadEnd] [] (inr 11%N)).
  - reflexivity.
  - repeat constructor.
Defined.

Lemma json_unescape_char_escape (c : ascii) (rest : string) :
  json_unescape (json_escape_char c +:+ rest) = String c (json_unescape rest).
Proof.
  destruct c as [[] [] [] [] [] [] [] []]; reflexivity.
Qed.

Lemma json_unescape_escape (s : string) : json_unescape (json_escape s) = s.
Proof.
  induction s as [| c s IH]; [reflexivity |].
  cbn [json_escape]. rewrite json_unescape_char_escape, IH. reflexivity.
Qed.

Lemma json_escape_inj (s1 s2 : string) : json_escape s1 = json_escape s2 -> s1 = s2.
Proof.
  intros H. rewrite <- (json_unescape_escape s1), <- (json_unescape_escape s2).
  now rewrite H.
Qed.

(** X17.  Every outcome with status 500 is made by the [catch] block of the
    handler from the error it caught, and has the same [message].  For an
    error whose message is a string, which is what [JsError] holds, the body
    carries that message, JSON-escaped, in [error], and the escaping loses
    nothing: two such failures have the same body only when their messages
    are the same.  An error object whose [message] is not a string is
    outside this statement. *)
Theorem failure_body_carries_message (w : World) (event : LambdaEvent)
    (res : Result Outcome) (tr : Trace) (o : Outcome) :
  invoke w event = (res, tr) ->
  res = Ok o -> statusCode o = 500 ->
  exists name msg,
    o = failure_outcome (mkJsError name msg)
    /\ body o = json_message_error "Failed to process shared folder" (json_escape msg)
    /\ json_unescape (json_escape msg) = msg
    /\ forall msg',
         json_message_error "Failed to process shared folder" (json_escape msg')
           = body o -> msg' = msg.
Proof.
  intros Hrun Hres Hstatus.
  assert (Hshape : exists e, o = failure_outcome e).
  { apply invoke_run in Hrun.
    destruct Hrun as [Hrec | record rest e Hrec Hkey
                     | record rest fileKey res tr Hrec Hkey Htransfer];
      [injection Hres as <-; eauto | injection Hres as <-; eauto |].
    destruct Htransfer; try discriminate Hres; injection Hres as <-; eauto;
      discriminate Hstatus. }
  clear Hres.
  destruct Hshape as [[name msg] ->]. exists name, msg.
  split; [reflexivity |]. split; [reflexivity |].
  split; [apply json_unescape_escape |].
  intros msg' H. cbn [failure_outcome body err_message] in H.
  unfold JSON_stringify, json_fields, json_message_error, json_string, quoted in H.
  simpl in H. injection H as H.
  change ((json_escape msg' +:+ str1 dquote) +:+ "}"
          = (json_escape msg +:+ str1 dquote) +:+ "}") in H.
  do 2 apply append_cancel_r in H. now apply json_escape_inj.
Qed.

Lemma failure_body_carries_message_witness :
  exists name msg,
    mkOutcome 500
      (json_message_error "Failed to process shared folder"
         (json_escape ("Shared folder " +:+ quoted "Reports" +:+ " not found.")))
      = failure_outcome (mkJsError name msg)
    /\ body (mkOutcome 500
               (json_message_error "Failed to process shared folder"
                  (json_escape ("Shared folder " +:+ quoted "Reports"
                                  +:+ " not found."))))
       = json_message_error "Failed to process shared folder" (json_escape msg)
    /\ json_unescape (json_escape msg) = msg
    /\ forall msg',
         json_message_error "Failed to process shared folder" (json_escape msg')
           = body (mkOutcome 500
                     (json_message_error "Failed to process shared folder"
                        (json_escape ("Shared folder " +:+ quoted "Reports"
                                        +:+ " not found."))))
         -> msg' = msg.
Proof.
  apply (failure_body_carries_message world_no_folder example_event
           (fst (invoke world_no_folder example_event))
           (snd (invoke world_no_folder example_event))).
  - apply surjective_pairing.
  - vm_compute. reflexivity.
  - reflexivity.
Defined.
